(** * roquin-iclip: gene-set overrepresentation analysis and figure helpers

    A shallow embedding of
      - [analyses/ora-gene-enrichment/lib/gene_enrichment_utils.py]
        ([convert_ensembl_id], [perform_ora], the row selection of
        [plot_enrichment_scatter]), and
      - [figures/figure-1/panel_d_bs_4tx_pie_chart.py]
        (the aggregation that feeds the pie chart and its legend).

    Conventions of the embedding.
      - Python [str] is [string], a sequence of eight-bit characters: a
        character is a code point below 256, and text is taken to lie in
        that range.  A Python [set] of strings is [gset string]; a [dict] is
        a [gmap] when only lookup matters and the list of its [items()] when
        the code iterates over it.
      - [list(s)] for a set [s] is [elements s], one enumeration of the
        set; Python does not fix the order, and the properties below hold
        for every order.
      - Python exceptions are values of [py_error]; a computation that may
        raise has type [result A].
      - Probabilities are exact rationals ([Q]); [0.05] is [1 # 20].  The
        IEEE rounding of scipy/numpy is not modelled: what is said of the
        cut at [0.05] is said of the values of the FDR column, and nothing
        is claimed of a p-value that lies exactly on a threshold.
      - Library calls (pandas, scipy, statsmodels, numpy) are modelled by the
        behaviour their documentation gives for the arguments used here. *)

From Stdlib Require Import Ascii String QArith Qminmax Qfield.
From stdpp Require Import base list sorting gmap strings fin_maps.

#[local] Set Warnings "-clear-no-such-hyp".

Local Open Scope string_scope.
Local Open Scope list_scope.

(** ** Python runtime: exceptions *)

Module Py.

Inductive py_error : Type :=
  | KeyError (keys : list string)
  | IndexError
  | ValueError.

Inductive result (A : Type) : Type :=
  | Ok (a : A)
  | Raise (e : py_error).
Arguments Ok {A} a.
Arguments Raise {A} e.

Global Instance result_ret : MRet result := λ A a, Ok a.
Global Instance result_bind : MBind result := λ A B f r,
  match r with
  | Ok a => f a
  | Raise e => Raise e
  end.

(** A list comprehension whose element expression may raise: the first
    exception aborts the comprehension. *)
Fixpoint comprehension {A B} (f : A → result B) (l : list A) : result (list B) :=
  match l with
  | [] => Ok []
  | x :: l' =>
      y ← f x; ys ← comprehension f l'; mret (y :: ys)
  end.

(** [l[i]] *)
Definition list_getitem {A} (l : list A) (i : nat) : result A :=
  match l !! i with
  | Some x => Ok x
  | None => Raise IndexError
  end.

(** [d[k]] *)
Definition dict_getitem {V} (d : gmap string V) (k : string) : result V :=
  match d !! k with
  | Some v => Ok v
  | None => Raise (KeyError [k])
  end.

(** [k in d] *)
Definition dict_contains {V} (d : gmap string V) (k : string) : bool :=
  bool_decide (is_Some (d !! k)).

(** [s.split(sep)] for a one-character separator: the maximal pieces between
    occurrences of [sep]; always at least one piece. *)
Fixpoint split (sep : ascii) (s : string) : list string :=
  match s with
  | EmptyString => [EmptyString]
  | String c r =>
      if Ascii.eqb c sep then EmptyString :: split sep r
      else match split sep r with
           | piece :: pieces => String c piece :: pieces
           | [] => [String c EmptyString]
           end
  end.

End Py.

Export Py.

Definition dot : ascii := "."%char.
Definition semicolon : ascii := ";"%char.

(** ** Identifier mapper *)

(** [convert_ensembl_id(ensembl_ids, ensembl_map)], lines 38-57. *)
Definition convert_ensembl_id (ensembl_ids : list string)
    (ensembl_map : gmap string string) : result (list string) :=
  ensembl_ids ← comprehension (λ gene, list_getitem (split dot gene) 0) ensembl_ids;
  comprehension (λ ens_id, dict_getitem ensembl_map ens_id)
    (List.filter (dict_contains ensembl_map) ensembl_ids).

(** The version-stripped form of an identifier, in the words of the
    specification: the prefix before the first ["."]. *)
Fixpoint prefix_before (sep : ascii) (s : string) : string :=
  match s with
  | EmptyString => EmptyString
  | String c r => if Ascii.eqb c sep then EmptyString else String c (prefix_before sep r)
  end.

Definition version_stripped (gene : string) : string := prefix_before dot gene.

(** ** Statistics library calls used by the ORA engine *)

Module Stats.

(** Binomial coefficient (Pascal's rule); [choose n k = 0] for [n < k]. *)
Fixpoint choose (n k : nat) : nat :=
  match k, n with
  | O, _ => 1
  | S _, O => 0
  | S k', S n' => choose n' k' + choose n' k
  end.

Definition Qsum (l : list Q) : Q := foldr Qplus 0%Q l.

(** [scipy.stats.hypergeom.pmf(k, M, n, N)]: population [M], [n] success
    states, [N] draws; the probability of exactly [k] successes. *)
Definition hypergeom_pmf (k M n N : nat) : Q :=
  if bool_decide (k ≤ N)%nat
  then Z.of_nat (choose n k * choose (M - n) (N - k)) # Pos.of_nat (choose M N)
  else 0%Q.

(** [scipy.stats.hypergeom.sf(x, M, n, N)]: the survival function
    [P(X > x)], the mass of the outcomes [x+1 .. N].  This is the exact
    value; scipy returns a float64 close to it. *)
Definition hypergeom_sf (x : Z) (M n N : nat) : Q :=
  Qsum ((λ i, hypergeom_pmf i M n N) <$>
        List.filter (λ i, bool_decide (x < Z.of_nat i)%Z) (seq 0 (S N))).

(** The quantities of the specification: for [X] hypergeometric with
    population [N], [K] success states and [n] draws, the probability
    [P(X = i)] and the upper tail [P(X ≥ k)]. *)
Definition hypergeometric_prob (N K n i : nat) : Q :=
  Z.of_nat (choose K i * choose (N - K) (n - i)) # Pos.of_nat (choose N n).

Definition upper_tail (N K n k : nat) : Q :=
  Qsum (hypergeometric_prob N K n <$> seq k (S n - k)).

(** Ordering of table rows by a rational key. *)
Definition key_le {A} (key : A → Q) : relation A :=
  λ a b, Is_true (Qle_bool (key a) (key b)).

(** [np.argsort(pvals)]: indices that sort [pvals] ascending.  The order
    numpy gives to equal keys depends on the platform; ties are kept in input
    order here. *)
Definition argsort (pvals : list Q) : list nat :=
  (merge_sort (key_le snd) (imap pair pvals)).*1.

(** [np.take(pvals, ind)] for in-range indices. *)
Definition np_take (pvals : list Q) (ind : list nat) : list Q :=
  (λ i, nth i pvals 0%Q) <$> ind.

(** [_ecdf(x)]: [np.arange(1, nobs+1) / float(nobs)]. *)
Definition ecdf (nobs : nat) : list Q :=
  (λ i, inject_Z (Z.of_nat i) / inject_Z (Z.of_nat nobs))%Q <$> seq 1 nobs.

(** [np.minimum.accumulate]: running minimum, left to right. *)
Fixpoint minimum_accumulate_from (acc : Q) (l : list Q) : list Q :=
  match l with
  | [] => []
  | x :: l' => let m := Qmin acc x in m :: minimum_accumulate_from m l'
  end.

Definition minimum_accumulate (l : list Q) : list Q :=
  match l with
  | [] => []
  | x :: l' => x :: minimum_accumulate_from x l'
  end.

(** [pvals_corrected[pvals_corrected > 1] = 1] *)
Definition clip_to_one (p : Q) : Q := if Qle_bool p 1 then p else 1%Q.

(** [fdrcorrection(pvals, method='indep', is_sorted=True)], the adjusted
    p-values (second component of its result). *)
Definition fdrcorrection_sorted (pvals_sorted : list Q) : list Q :=
  let ecdffactor := ecdf (length pvals_sorted) in
  let pvals_corrected_raw := zip_with Qdiv pvals_sorted ecdffactor in
  let pvals_corrected :=
    reverse (minimum_accumulate (reverse pvals_corrected_raw)) in
  clip_to_one <$> pvals_corrected.

(** [out[ind] = vals] (assignment through an index array). *)
Definition scatter (ind : list nat) (vals : list Q) (out : list Q) : list Q :=
  foldl (λ out iv, <[iv.1 := iv.2]> out) out (zip ind vals).

(** [multipletests(pvals, method='fdr_bh')[1]]: Benjamini-Hochberg adjusted
    p-values, in the order of [pvals]. *)
Definition multipletests_fdr_bh (pvals : list Q) : list Q :=
  let sortind := argsort pvals in
  let pvals_sorted := np_take pvals sortind in
  let pvals_corrected := fdrcorrection_sorted pvals_sorted in
  scatter sortind pvals_corrected (replicate (length pvals) 0%Q).

(** The running minimum taken from the right end, written as a direct
    recursion: what [np.minimum.accumulate(x[::-1])[::-1]] computes. *)
Fixpoint cummin_right (l : list Q) : list Q :=
  match l with
  | [] => []
  | x :: l' =>
      let t := cummin_right l' in
      match t with
      | [] => x
      | y :: _ => Qmin y x
      end :: t
  end.

End Stats.

Export Stats.

(** ** ORA engine *)

(** One dictionary appended to [results] in the loop of [perform_ora]. *)
Record ora_record : Type := {
  rec_term : string;
  rec_k : nat;
  rec_K : nat;
  rec_n : nat;
  rec_N : nat;
  rec_p_value : Q;
  rec_study_genes : list string
}.

(** One row of the table [perform_ora] returns. *)
Record ora_row : Type := {
  term : string;
  study_count : nat;
  background_count : nat;
  p_value : Q;
  FDR : Q;
  study_genes : list string
}.

(** [set(xs)] *)
Definition py_set (xs : list string) : gset string := list_to_set xs.

(** The body of the loop at lines 114-141 for one [(term, genes)] item.
    [list(study_genes & term_genes)] is one enumeration of the set, here
    [elements]; which one Python gives is not fixed, so that list is only
    spoken of up to its order. *)
Definition ora_term (study_genes background_genes : gset string) (n N : nat)
    (item : string * list string) : ora_record :=
  let '(term, genes) := item in
  let term_genes := py_set genes ∩ background_genes in
  let K := size term_genes in
  let k := size (study_genes ∩ term_genes) in
  let p_value :=
    if (K =? 0)%nat then 1%Q
    else hypergeom_sf (Z.of_nat k - 1) N K n in
  {| rec_term := term; rec_k := k; rec_K := K; rec_n := n; rec_N := N;
     rec_p_value := p_value;
     rec_study_genes := elements (study_genes ∩ term_genes) |}.

(** Lines 104-141: the list [results]. *)
Definition ora_results (study_genes : list string)
    (gene_sets : list (string * list string))
    (background_genes : list string) : list ora_record :=
  let study_genes := py_set study_genes in
  let background_genes := py_set background_genes in
  let n := size (study_genes ∩ background_genes) in
  let N := size background_genes in
  ora_term study_genes background_genes n N <$> gene_sets.

(** [pd.DataFrame(results)]: the columns are the keys of the dictionaries, so
    a frame built from an empty list has no columns at all. *)
Definition ora_columns : list string :=
  ["term"; "k"; "K"; "n"; "N"; "p_value"; "study_genes"].

Definition DataFrame_columns (results : list ora_record) : list string :=
  match results with
  | [] => []
  | _ :: _ => ora_columns
  end.

(** [df[name]]: the column, or [KeyError] when the frame has no such column. *)
Definition DataFrame_getitem {A} (results : list ora_record) (name : string)
    (field : ora_record → A) : result (list A) :=
  if bool_decide (name ∈ DataFrame_columns results)
  then Ok (field <$> results)
  else Raise (KeyError [name]).

(** [df.sort_values(by='FDR')]: rows in ascending order of the FDR column. *)
Definition sort_values_FDR (rows : list (ora_record * Q)) : list (ora_record * Q) :=
  merge_sort (key_le snd) rows.

Definition alpha : Q := 1 # 20.

(** Lines 156-159: the presentation columns. *)
Definition select_columns (r : ora_record * Q) : ora_row :=
  {| term := rec_term r.1;
     study_count := rec_k r.1;
     background_count := rec_K r.1;
     p_value := rec_p_value r.1;
     FDR := r.2;
     study_genes := rec_study_genes r.1 |}.

(** [perform_ora(study_genes, gene_sets, background_genes)], lines 61-161.
    [gene_sets] is given by its [items()]. *)
Definition perform_ora (study_genes : list string)
    (gene_sets : list (string * list string))
    (background_genes : list string) : result (list ora_row) :=
  let results := ora_results study_genes gene_sets background_genes in
  p_values ← DataFrame_getitem results "p_value" rec_p_value;
  let fdrs := multipletests_fdr_bh p_values in
  let results_df := zip results fdrs in
  let results_df := sort_values_FDR results_df in
  let results_df := List.filter (λ r, Qle_bool r.2 alpha) results_df in
  mret (select_columns <$> results_df).

(** The table of [perform_ora] after line 148, before it is sorted and cut at
    the significance level: every record with the adjusted p-value of its
    row. *)
Definition ora_table (study_genes : list string)
    (gene_sets : list (string * list string))
    (background_genes : list string) : list (ora_record * Q) :=
  let results := ora_results study_genes gene_sets background_genes in
  zip results (multipletests_fdr_bh (rec_p_value <$> results)).

Definition significant (row : ora_row) : bool := Qle_bool (FDR row) alpha.

(** The set of terms of a table, and of a [gene_sets] dictionary. *)
Definition table_terms (table : list ora_row) : gset string :=
  list_to_set (term <$> table).
Definition input_terms (gene_sets : list (string * list string)) : gset string :=
  list_to_set gene_sets.*1.

(** [listed] holds, without repetition, exactly the genes that are at once
    in the study, in the term and in the background, and there are [count] of
    them. *)
Definition contributing_genes (study genes background listed : list string)
    (count : nat) : Prop :=
  NoDup listed
  ∧ (∀ g, g ∈ listed ↔ g ∈ study ∧ g ∈ genes ∧ g ∈ background)
  ∧ length listed = count.

(** Two rows that agree up to the order of their [study_genes] lists, and two
    outcomes of [perform_ora] that agree row by row in that sense.  The order
    in which [list(...)] enumerates a set is not fixed by Python. *)
Definition same_row (a b : ora_row) : Prop :=
  term a = term b
  ∧ study_count a = study_count b
  ∧ background_count a = background_count b
  ∧ p_value a = p_value b
  ∧ FDR a = FDR b
  ∧ study_genes a ≡ₚ study_genes b.

Definition same_outcome (r r' : result (list ora_row)) : Prop :=
  match r, r' with
  | Ok table, Ok table' => Forall2 same_row table table'
  | Raise e, Raise e' => e = e'
  | _, _ => False
  end.

(** The worked example of the docstring of [perform_ora]. *)
Definition example_background : list string :=
  ["g1"; "g2"; "g3"; "g4"; "g5"; "g6"; "g7"; "g8"; "g9"; "g10"].
Definition example_study : list string := ["g1"; "g3"; "g5"; "g7"].
Definition example_gene_sets : list (string * list string) :=
  [("A", ["g1"; "g2"; "g3"]); ("B", ["g3"; "g4"; "g6"]);
   ("C", ["g7"; "g8"; "g9"; "g10"]); ("D", ["g2"; "g5"; "g8"])].

(** A second example: a background of eight genes, a study of four, one
    term made of the study genes and one term outside the study. *)
Definition small_background : list string :=
  ["a"; "b"; "c"; "d"; "e"; "f"; "g"; "h"].
Definition small_study : list string := ["a"; "b"; "c"; "d"].
Definition small_gene_sets : list (string * list string) :=
  [("T", ["a"; "b"; "c"; "d"]); ("U", ["e"])].
(** A call with two significant terms, one inside the other, and a third
    term without study genes. *)
Definition nested_background : list string :=
  ["a"; "b"; "c"; "d"; "e"; "f"; "g"; "h"; "i"; "j"; "k"; "l"].
Definition nested_study : list string := ["a"; "b"; "c"; "d"; "e"].
Definition nested_gene_sets : list (string * list string) :=
  [("V", ["a"; "b"; "c"; "d"]); ("T", ["a"; "b"; "c"; "d"; "e"]); ("U", ["f"])].

Definition single_gene_set : list (string * list string) :=
  [("T", ["a"; "b"; "c"; "d"])].

(** ** Scatter plotter: the rows that are drawn *)

(** The columns of [result_df] the plot reads, under the default column
    bindings ([x_column = sc_column = 'study_count']). *)
Record enrichment_row : Type := {
  er_name : string;
  er_study_count : Z;
  er_background_count : Z;
  er_pvalue : Q
}.

(** A pandas float64 cell: a number, an infinity or NaN. *)
Inductive float_val : Type :=
  | Finite (q : Q)
  | PosInf
  | NegInf
  | NaN.

(** [a / b] on integer columns: true division, with [inf] and [NaN] for a
    zero denominator. *)
Definition true_divide (a b : Z) : float_val :=
  if (b =? 0)%Z then
    if (a =? 0)%Z then NaN else if (0 <? a)%Z then PosInf else NegInf
  else Finite (inject_Z a / inject_Z b)%Q.

(** Ascending order of [sort_values]; NaN goes last. *)
Definition float_leb (a b : float_val) : bool :=
  match a, b with
  | _, NaN => true
  | NaN, _ => false
  | NegInf, _ => true
  | _, NegInf => false
  | _, PosInf => true
  | PosInf, _ => false
  | Finite x, Finite y => Qle_bool x y
  end.

Definition ratio_le : relation (enrichment_row * float_val) :=
  λ a b, Is_true (float_leb a.2 b.2).

(** [df.head(n)]: the first [n] rows; for negative [n], all but the last
    [-n] rows. *)
Definition DataFrame_head {A} (n : Z) (rows : list A) : list A :=
  if (0 <=? n)%Z then take (Z.to_nat n) rows
  else take (length rows - Z.to_nat (- n)) rows.

(** Lines 197-213 of [plot_enrichment_scatter]: the frame [data] after the
    filters, the sort and the cut at [top_n], each row with its
    ['ratio_in_study'].  These are the rows handed to [ax.scatter] when the
    colours of line 230 can be computed, see [plot_enrichment_scatter_drawn].
    The ratio is the exact quotient of the two counts. *)
Definition plot_enrichment_scatter_rows (result_df : list enrichment_row)
    (min_study_count : Z) (max_pval : option Q) (top_n : option Z)
    : list (enrichment_row * float_val) :=
  let data := result_df in
  let data := List.filter (λ r, (min_study_count <=? er_study_count r)%Z) data in
  let data :=
    match max_pval with
    | Some max_pval => List.filter (λ r, Qle_bool (er_pvalue r) max_pval) data
    | None => data
    end in
  let data :=
    (λ r, (r, true_divide (er_study_count r) (er_background_count r))) <$> data in
  let data := merge_sort ratio_le data in
  match top_n with
  | Some top_n => if (top_n =? 0)%Z then data else DataFrame_head top_n data
  | None => data
  end.

(** [math.log10(x)], as far as it is defined: [ValueError] for [x <= 0].
    The value of the logarithm is not modelled. *)
Definition math_log10_domain (x : Q) : result unit :=
  if Qle_bool x 0 then Raise ValueError else Ok ().

(** Lines 197-230 of [plot_enrichment_scatter]: the rows drawn by
    [ax.scatter].  The colour list [[-math.log10(x) for x in
    data[pvalue_column]]] is built first and raises on a selected row whose
    p-value is not positive; nothing is drawn then. *)
Definition plot_enrichment_scatter_drawn (result_df : list enrichment_row)
    (min_study_count : Z) (max_pval : option Q) (top_n : option Z)
    : result (list (enrichment_row * float_val)) :=
  let data :=
    plot_enrichment_scatter_rows result_df min_study_count max_pval top_n in
  _ ← comprehension (λ row, math_log10_domain (er_pvalue row.1)) data;
  mret data.

(** Two terms with the same p-value, hit at 1 of 4 and at 3 of 4 genes. *)
Definition term_low : enrichment_row :=
  {| er_name := "low"; er_study_count := 1; er_background_count := 4;
     er_pvalue := 1 # 100 |}.
Definition term_high : enrichment_row :=
  {| er_name := "high"; er_study_count := 3; er_background_count := 4;
     er_pvalue := 1 # 100 |}.

(** A term whose p-value is zero. *)
Definition term_zero : enrichment_row :=
  {| er_name := "zero"; er_study_count := 2; er_background_count := 4;
     er_pvalue := 0 |}.

(** ** Pie-chart script *)

Module PieChart.

(** A line of the annotated BED file; [chr] is taken to be present on every
    line, so that [count()] of the ['chr'] column counts lines. *)
Record bed_row : Type := {
  chr : string;
  start : Z;
  end_ : Z;
  name : string;
  score : string;
  strand : string
}.

(** A pandas Series of counts: index labels with their values, in order. *)
Definition Series : Type := list (string * nat).

(** [df.groupby(key)[col].count()]: one entry per distinct key, in ascending
    key order, with the number of rows of the group. *)
Definition groupby_count (keys : list string) : Series :=
  (λ key, (key, length (List.filter (String.eqb key) keys))) <$>
  merge_sort String.le (remove_dups keys).

(** [s.drop(labels)]: every label has to be in the index. *)
Definition Series_drop (labels : list string) (s : Series) : result Series :=
  match List.filter (λ l, bool_decide (l ∉ s.*1)) labels with
  | [] => Ok (List.filter (λ kv, bool_decide (kv.1 ∉ labels)) s)
  | missing => Raise (KeyError missing)
  end.

(** [dict(pairs)]: a later pair overrides an earlier one with the same key. *)
Definition py_dict (pairs : list (string * string)) : gmap string string :=
  foldl (λ d kv, <[kv.1 := kv.2]> d) ∅ pairs.

(** [s.rename(index=mapper)]: labels without an entry are kept. *)
Definition Series_rename (mapper : gmap string string) (s : Series) : Series :=
  (λ kv, (default kv.1 (mapper !! kv.1), kv.2)) <$> s.

(** [s[label]]: the value under a label that occurs once, a sub-series when
    the label occurs several times, [KeyError] when it does not occur. *)
Inductive series_item : Type :=
  | Scalar (v : nat)
  | SubSeries (vs : list nat).

Definition Series_getitem (s : Series) (label : string) : result series_item :=
  match List.filter (λ kv, String.eqb kv.1 label) s with
  | [] => Raise (KeyError [label])
  | [kv] => Ok (Scalar kv.2)
  | kvs => Ok (SubSeries kvs.*2)
  end.

Definition colors_mouse : list string :=
  ["#D41159"; "#B12E7D"; "#82448D"; "#524D89"; "#314E74"].
Definition colors_human : list string :=
  ["#1A85FF"; "#00AEFF"; "#00CDF1"; "#00E4BB"; "#8AF387"].

Definition excluded : list string := ["exon"; "start_codon"; "stop_codon"].
Definition renamed_columns : list string := ["CDS"; "5'UTR"; "Intron"; "3'UTR"].

(** What the script hands to matplotlib: the wedge sizes with their index
    labels, the palette, and the legend entries.  A legend entry [(label, v)]
    stands for the text [f"{label} (n={v})"]. *)
Record pie_chart : Type := {
  wedges : Series;
  colors : list string;
  legend : list (string * series_item)
}.

(** Lines 44-82 of the script, from the parsed BED lines on. *)
Definition main (input_bed : list bed_row) (palette : string) : result pie_chart :=
  tx_region ← comprehension (λ r, list_getitem (split semicolon (name r)) 0) input_bed;
  let bs := groupby_count tx_region in
  bs ← Series_drop excluded bs;
  let bs := Series_rename (py_dict (zip bs.*1 renamed_columns)) bs in
  let labels := renamed_columns in
  labels ← comprehension (λ label, v ← Series_getitem bs label; mret (label, v)) labels;
  let colors := if String.eqb palette "human" then colors_human else colors_mouse in
  mret {| wedges := bs; colors := colors; legend := labels |}.

(** The region category of a line in the words of the specification: the
    token of the name field before the first [";"]; and the number of lines of
    a category. *)
Definition tx_region_of (r : bed_row) : string := prefix_before semicolon (name r).

Definition rows_in_category (input_bed : list bed_row) (category : string) : nat :=
  length (List.filter (λ r, String.eqb (tx_region_of r) category) input_bed).

Definition bed_line (name : string) : bed_row :=
  {| chr := "chr1"; start := 100; end_ := 105; name := name;
     score := "."; strand := "+" |}.

(** The three lines of the specification's example, and an input with every
    category the script expects. *)
Definition example_bed : list bed_row :=
  [bed_line "CDS;x"; bed_line "intron;y"; bed_line "exon;z"].

Definition full_bed : list bed_row :=
  [bed_line "CDS;x"; bed_line "intron;y"; bed_line "exon;z";
   bed_line "start_codon;a"; bed_line "stop_codon;b";
   bed_line "three_prime_utr;c"; bed_line "five_prime_utr;d";
   bed_line "intron;e"].

End PieChart.


(** ** Input loader *)

Module PyStr.

(** [c.isspace()] for a code point below 256: tab, line feed, vertical tab,
    form feed, carriage return (9-13), the separators 28-31, the space (32),
    next line (U+0085) and the no-break space (U+00A0). *)
Definition isspace (c : ascii) : bool :=
  let n := nat_of_ascii c in
  ((9 <=? n)%nat && (n <=? 13)%nat) || ((28 <=? n)%nat && (n <=? 32)%nat)
  || (n =? 133)%nat || (n =? 160)%nat.

Definition NEL : ascii := ascii_of_nat 133.
Definition NBSP : ascii := ascii_of_nat 160.

Definition LF : ascii := ascii_of_nat 10.
Definition CR : ascii := ascii_of_nat 13.

(** [s.lstrip()], [s.rstrip()], [s.strip()] *)
Fixpoint str_lstrip (s : string) : string :=
  match s with
  | EmptyString => EmptyString
  | String c r => if isspace c then str_lstrip r else s
  end.

Fixpoint str_rstrip (s : string) : string :=
  match s with
  | EmptyString => EmptyString
  | String c r =>
      match str_rstrip r with
      | EmptyString => if isspace c then EmptyString else String c EmptyString
      | r' => String c r'
      end
  end.

Definition str_strip (s : string) : string := str_rstrip (str_lstrip s).

(** Reading in text mode with [newline=None]: the line endings CR LF and CR
    become LF. *)
Fixpoint universal_newlines (s : string) : string :=
  match s with
  | EmptyString => EmptyString
  | String c r =>
      if Ascii.eqb c CR then
        String LF
          match r with
          | String c' r' =>
              if Ascii.eqb c' LF then universal_newlines r'
              else universal_newlines r
          | EmptyString => EmptyString
          end
      else String c (universal_newlines r)
  end.

(** [file.readlines()]: the text cut after every LF, each line keeping its
    LF; no line for an empty remainder. *)
Fixpoint readlines (text : string) : list string :=
  match text with
  | EmptyString => []
  | String c r =>
      if Ascii.eqb c LF then String c EmptyString :: readlines r
      else match readlines r with
           | line :: lines => String c line :: lines
           | [] => [String c EmptyString]
           end
  end.

(** [s.replace(old, new)] for a non-empty [old]: the occurrences of [old] are
    replaced from the left, without overlap.  [skip] counts the characters of
    an occurrence that are still to be passed over. *)
Fixpoint str_replace_from (old new : string) (skip : nat) (s : string) : string :=
  match s with
  | EmptyString => EmptyString
  | String c r =>
      match skip with
      | S skip' => str_replace_from old new skip' r
      | O =>
          if String.prefix old s
          then String.append new
                 (str_replace_from old new (String.length old - 1) r)
          else String c (str_replace_from old new 0 r)
      end
  end.

Definition str_replace (old new s : string) : string :=
  str_replace_from old new 0 s.

(** [old] occurs in [s]. *)
Definition occurs (old s : string) : Prop :=
  ∃ before after, s = String.append before (String.append old after).

(** [old in s], by trying every position. *)
Fixpoint occursb (old s : string) : bool :=
  String.prefix old s
  || match s with
     | EmptyString => false
     | String _ r => occursb old r
     end.

End PyStr.

Export PyStr.

(** [read_txt_file(file_path)], lines 18-30, from the decoded contents of the
    file at [file_path] on. *)
Definition read_txt_file (contents : string) : list string :=
  let lines := readlines (universal_newlines contents) in
  str_strip <$> lines.

(** A file of newline-terminated lines. *)
Definition unlines (lines : list string) : string :=
  foldr (λ line rest, String.append line (String LF rest)) EmptyString lines.

(** Lines 241-243 of [plot_enrichment_scatter]: the paths handed to
    [plt.savefig], in order. *)
Definition savefig_paths (outpath : option string) : list string :=
  match outpath with
  | None => []
  | Some EmptyString => []
  | Some outpath => [outpath; str_replace ".pdf" ".png" outpath]
  end.
(** * Properties *)

(** ** Identifier mapper *)

Section identifier_mapper.

Lemma split_lookup_0 sep s : split sep s !! 0%nat = Some (prefix_before sep s).
Proof.
  induction s as [|c r IH]; simpl; [done|].
  destruct (Ascii.eqb c sep); [done|].
  destruct (split sep r) as [|piece pieces]; [done|].
  by injection IH as ->.
Qed.

Lemma comprehension_total {A B} (f : A → result B) (g : A → B) l :
  (∀ x, x ∈ l → f x = Ok (g x)) → comprehension f l = Ok (g <$> l).
Proof.
  induction l as [|x l IH]; intros Hf; simpl; [done|].
  rewrite Hf by left. rewrite IH by (intros; apply Hf; by right). done.
Qed.

(** The version-stripped form is a prefix of the identifier, has no dot, and
    is followed by a dot whenever it is not the whole identifier. *)
Lemma version_stripped_prefix gene :
  gene = version_stripped gene ∨
  ∃ rest, gene = String.append (version_stripped gene) (String dot rest).
Proof.
  unfold version_stripped. induction gene as [|c r IH]; simpl; [by left|].
  destruct (Ascii.eqb_spec c dot) as [->|Hc].
  - right. by exists r.
  - destruct IH as [IH|[rest IH]].
    + left. by f_equal.
    + right. exists rest. exact (f_equal (String c) IH).
Qed.

Lemma version_stripped_no_dot gene :
  dot ∉ list_ascii_of_string (version_stripped gene).
Proof.
  unfold version_stripped. induction gene as [|c r IH]; simpl.
  - apply not_elem_of_nil.
  - destruct (Ascii.eqb_spec c dot) as [->|Hc]; simpl.
    + apply not_elem_of_nil.
    + rewrite not_elem_of_cons. split; [congruence|done].
Qed.

Lemma lookup_comprehension (m : gmap string string) ids :
  comprehension (dict_getitem m) (List.filter (dict_contains m) ids)
  = Ok (omap (λ ens_id, m !! ens_id) ids).
Proof.
  induction ids as [|x ids IH]; simpl; [done|].
  unfold dict_contains at 1. destruct (m !! x) as [v|] eqn:Hx.
  - rewrite bool_decide_eq_true_2 by eauto. simpl.
    assert (dict_getitem m x = Ok v) as -> by (unfold dict_getitem; by rewrite Hx). simpl. by rewrite IH.
  - rewrite bool_decide_eq_false_2 by (by intros [? ?]). done.
Qed.

(** C4. [convert_ensembl_id] never raises; it returns, in input order, the
    mapped identifier of every input whose version-stripped form (the prefix
    before the first dot) is a key of the mapping, and nothing for the other
    inputs.  On ["ENSG001.3"; "ENSG002"] with {"ENSG001": "TP53"} the result
    is ["TP53"]. *)
Theorem convert_ensembl_id_mapped :
  (∀ (ensembl_ids : list string) (ensembl_map : gmap string string),
     convert_ensembl_id ensembl_ids ensembl_map
     = Ok (omap (λ gene, ensembl_map !! version_stripped gene) ensembl_ids))
  ∧ convert_ensembl_id ["ENSG001.3"; "ENSG002"] {["ENSG001" := "TP53"]}
    = Ok ["TP53"].
Proof.
  split; [|by vm_compute].
  intros ids m. unfold convert_ensembl_id.
  rewrite (comprehension_total _ version_stripped).
  - simpl. rewrite lookup_comprehension. f_equal.
    induction ids as [|x ids IH]; [done|].
    cbn [fmap list_fmap omap list_omap]. rewrite <- IH.
    by destruct (m !! version_stripped x).
  - intros gene _. unfold list_getitem. by rewrite split_lookup_0.
Qed.

End identifier_mapper.

(** ** ORA engine: the per-term records *)

Section ora_records.

Implicit Types (study_genes background_genes genes : list string).
Implicit Types (gene_sets : list (string * list string)).

(** Every record of [results] comes from one item of [gene_sets]. *)
Lemma elem_of_ora_results study_genes gene_sets background_genes r :
  r ∈ ora_results study_genes gene_sets background_genes ↔
  ∃ item, item ∈ gene_sets ∧
    r = ora_term (py_set study_genes) (py_set background_genes)
          (size (py_set study_genes ∩ py_set background_genes))
          (size (py_set background_genes)) item.
Proof.
  unfold ora_results. rewrite list_elem_of_fmap. naive_solver.
Qed.

Lemma ora_results_terms study_genes gene_sets background_genes :
  rec_term <$> ora_results study_genes gene_sets background_genes = gene_sets.*1.
Proof.
  unfold ora_results. rewrite <- list_fmap_compose.
  apply list_fmap_ext. by intros _ [term genes] _.
Qed.

Lemma length_ora_results study_genes gene_sets background_genes :
  length (ora_results study_genes gene_sets background_genes) = length gene_sets.
Proof. unfold ora_results. by rewrite length_fmap. Qed.

(** C5. In every record the counts satisfy [k ≤ min n K], [K ≤ N] and
    [n ≤ N] (all counts are naturals, hence non-negative), where [k] counts
    the study genes in the term, [K] the background genes in the term, [n] the
    study genes in the background and [N] the background.  On the worked
    example term A has k=2, K=3, n=4, N=10 and term C has k=1, K=4. *)
Theorem ora_counts_invariant :
  (∀ study_genes gene_sets background_genes,
     Forall (λ r, (rec_k r ≤ rec_n r `min` rec_K r)%nat
                  ∧ (rec_K r ≤ rec_N r)%nat ∧ (rec_n r ≤ rec_N r)%nat
                  ∧ rec_n r = size (py_set study_genes ∩ py_set background_genes)
                  ∧ rec_N r = size (py_set background_genes))
       (ora_results study_genes gene_sets background_genes))
  ∧ (λ r, (rec_term r, rec_k r, rec_K r, rec_n r, rec_N r)) <$>
      ora_results example_study example_gene_sets example_background
    = [("A", 2, 3, 4, 10); ("B", 1, 3, 4, 10);
       ("C", 1, 4, 4, 10); ("D", 1, 3, 4, 10)]%nat.
Proof.
  split; [|by vm_compute].
  intros study_genes gene_sets background_genes.
  apply Forall_forall. intros r [[term genes] [_ ->]]%elem_of_ora_results.
  cbn [ora_term rec_k rec_K rec_n rec_N].
  repeat split.
  - apply Nat.min_glb; apply subseteq_size; set_solver.
  - apply subseteq_size; set_solver.
  - apply subseteq_size; set_solver.
Qed.

End ora_records.

(** ** Hypergeometric tail *)

Section hypergeometric.

Lemma choose_0_r n : choose n 0 = 1%nat.
Proof. by destruct n. Qed.

Lemma choose_0_l k : choose 0 (S k) = 0%nat.
Proof. done. Qed.

Lemma choose_succ n k : choose (S n) (S k) = (choose n k + choose n (S k))%nat.
Proof. done. Qed.

Lemma choose_pos n k : (k ≤ n)%nat → (0 < choose n k)%nat.
Proof.
  revert k. induction n as [|n IH]; intros [|k] Hk; simpl; try lia.
  specialize (IH k). lia.
Qed.

Lemma sum_list_with_ext {A} (f g : A → nat) l :
  (∀ x, x ∈ l → f x = g x) → sum_list_with f l = sum_list_with g l.
Proof.
  induction l as [|x l IH]; intros Hfg; simpl; [done|].
  rewrite (Hfg x) by left. rewrite IH; [done|]. intros; apply Hfg; by right.
Qed.

Lemma sum_list_with_add {A} (f g : A → nat) l :
  sum_list_with (λ x, f x + g x)%nat l
  = (sum_list_with f l + sum_list_with g l)%nat.
Proof. induction l as [|x l IH]; simpl; lia. Qed.

Lemma sum_list_with_seq_S (f : nat → nat) first len :
  sum_list_with f (seq (S first) len) = sum_list_with (f ∘ S) (seq first len).
Proof.
  revert first. induction len as [|len IH]; intros first; simpl; [done|].
  by rewrite IH.
Qed.

Lemma sum_list_with_seq_0 (f : nat → nat) len :
  sum_list_with f (seq 0 (S len))
  = (f 0%nat + sum_list_with (f ∘ S) (seq 0 len))%nat.
Proof. cbn [seq sum_list_with]. by rewrite sum_list_with_seq_S. Qed.

Lemma sum_list_with_zero {A} (f : A → nat) l :
  (∀ x, x ∈ l → f x = 0%nat) → sum_list_with f l = 0%nat.
Proof.
  induction l as [|x l IH]; intros Hf; simpl; [done|].
  rewrite (Hf x) by left. rewrite IH; [done|]. intros; apply Hf; by right.
Qed.

(** Vandermonde's identity. *)
Lemma vandermonde a b n :
  sum_list_with (λ i, choose a i * choose b (n - i))%nat (seq 0 (S n))
  = choose (a + b) n.
Proof.
  revert n. induction a as [|a IH]; intros n.
  - rewrite sum_list_with_seq_0, choose_0_r, Nat.sub_0_r.
    rewrite sum_list_with_zero; [simpl; lia|]. by intros i _.
  - destruct n as [|n]; [cbn; by rewrite !choose_0_r|].
    change (S a + b)%nat with (S (a + b)). rewrite choose_succ, <- !IH.
    rewrite (sum_list_with_seq_0 _ (S n)), (sum_list_with_seq_0 _ (S n)).
    rewrite !choose_0_r, !Nat.sub_0_r.
    rewrite (sum_list_with_ext
      ((λ i, choose (S a) i * choose b (S n - i))%nat ∘ S)
      (λ j, choose a j * choose b (n - j)
            + ((λ i, choose a i * choose b (S n - i)) ∘ S) j)%nat).
    + rewrite sum_list_with_add. lia.
    + intros j _. simpl. lia.
Qed.

Lemma Qsum_common_denominator {A} (f : A → nat) (d : positive) (l : list A) :
  (Qsum ((λ x, Z.of_nat (f x) # d) <$> l) == Z.of_nat (sum_list_with f l) # d)%Q.
Proof.
  induction l as [|x l IH]; [done|].
  cbn [fmap list_fmap Qsum foldr sum_list_with]. fold (Qsum ((λ x, Z.of_nat (f x) # d) <$> l)).
  rewrite IH, Qinv_plus_distr. by rewrite Nat2Z.inj_add.
Qed.

Lemma filter_all_false {A} (f : A → bool) l :
  (∀ x, x ∈ l → f x = false) → List.filter f l = [].
Proof.
  induction l as [|x l IH]; intros Hf; simpl; [done|].
  rewrite (Hf x) by left. apply IH. intros; apply Hf; by right.
Qed.

Lemma filter_all_true {A} (f : A → bool) l :
  (∀ x, x ∈ l → f x = true) → List.filter f l = l.
Proof.
  induction l as [|x l IH]; intros Hf; simpl; [done|].
  rewrite (Hf x) by left. f_equal. apply IH. intros; apply Hf; by right.
Qed.

(** The outcomes above [k - 1] among [0 .. n] are [k .. n]. *)
Lemma filter_seq_above (k n : nat) :
  List.filter (λ i, bool_decide (Z.of_nat k - 1 < Z.of_nat i)%Z) (seq 0 (S n))
  = seq k (S n - k).
Proof.
  destruct (decide (k ≤ S n)%nat) as [Hk|Hk].
  - replace (S n) with (k + (S n - k))%nat at 1 by lia.
    rewrite seq_app, List.filter_app, filter_all_false, filter_all_true; [done|..].
    + intros i [? ?]%elem_of_seq. apply bool_decide_eq_true_2. lia.
    + intros i [? ?]%elem_of_seq. apply bool_decide_eq_false_2. lia.
  - replace (S n - k)%nat with 0%nat by lia. apply filter_all_false.
    intros i [? ?]%elem_of_seq. apply bool_decide_eq_false_2. lia.
Qed.

(** The survival function at [k - 1] is the upper tail [P(X ≥ k)]. *)
Lemma hypergeom_sf_upper_tail (N K n k : nat) :
  hypergeom_sf (Z.of_nat k - 1) N K n = upper_tail N K n k.
Proof.
  unfold hypergeom_sf, upper_tail. rewrite filter_seq_above. f_equal.
  apply list_fmap_ext. intros _ i [Hk Hi]%list_elem_of_lookup_2%elem_of_seq.
  unfold hypergeom_pmf, hypergeometric_prob.
  rewrite bool_decide_eq_true_2; [done|lia].
Qed.

Lemma upper_tail_numerator (N K n k : nat) :
  (upper_tail N K n k ==
   Z.of_nat (sum_list_with (λ i, choose K i * choose (N - K) (n - i))%nat
               (seq k (S n - k)))
   # Pos.of_nat (choose N n))%Q.
Proof. unfold upper_tail, hypergeometric_prob. apply Qsum_common_denominator. Qed.

Lemma tail_numerator_le (N K n k : nat) :
  (K ≤ N)%nat →
  (sum_list_with (λ i, choose K i * choose (N - K) (n - i))%nat (seq k (S n - k))
   ≤ choose N n)%nat.
Proof.
  intros HK. replace (choose N n) with (choose (K + (N - K)) n) by (f_equal; lia).
  rewrite <- vandermonde.
  destruct (decide (k ≤ S n)%nat) as [Hk|Hk].
  - replace (S n) with (k + (S n - k))%nat at 2 by lia.
    rewrite seq_app, sum_list_with_app. simpl. lia.
  - replace (S n - k)%nat with 0%nat by lia. simpl. lia.
Qed.

(** The upper tail is a probability. *)
Lemma upper_tail_bounds (N K n k : nat) :
  (K ≤ N)%nat → (n ≤ N)%nat → (0 <= upper_tail N K n k <= 1)%Q.
Proof.
  intros HK Hn. rewrite upper_tail_numerator.
  pose proof (tail_numerator_le N K n k HK) as Hle.
  pose proof (choose_pos N n Hn) as Hpos.
  unfold Qle. simpl. split; [lia|].
  rewrite Z.mul_1_r. rewrite <- (Nat2Pos.id (choose N n)) in Hle by lia. lia.
Qed.

(** The whole distribution has mass one. *)
Lemma upper_tail_0 (N K n : nat) :
  (K ≤ N)%nat → (n ≤ N)%nat → (upper_tail N K n 0 == 1)%Q.
Proof.
  intros HK Hn. rewrite upper_tail_numerator, Nat.sub_0_r.
  rewrite vandermonde. replace (K + (N - K))%nat with N by lia.
  pose proof (choose_pos N n Hn) as Hpos.
  unfold Qeq. simpl. rewrite Z.mul_1_r.
  rewrite <- (Nat2Pos.id (choose N n)) at 1 by lia. lia.
Qed.

End hypergeometric.

(** ** Benjamini-Hochberg adjustment *)

Section benjamini_hochberg.

Implicit Types (l pvals : list Q) (p q : Q).

Global Instance key_le_trans {A} (key : A → Q) : Transitive (key_le key).
Proof.
  intros a b c. unfold key_le. rewrite !Is_true_true, !Qle_bool_iff.
  apply Qle_trans.
Qed.

Global Instance key_le_total {A} (key : A → Q) : Total (key_le key).
Proof.
  intros a b. unfold key_le. rewrite !Is_true_true, !Qle_bool_iff.
  destruct (Qlt_le_dec (key a) (key b)) as [H|H]; [left|right]; [|done].
  by apply Qlt_le_weak.
Qed.

Lemma key_le_Qle {A} (key : A → Q) a b : key_le key a b ↔ (key a <= key b)%Q.
Proof. unfold key_le. by rewrite Is_true_true, Qle_bool_iff. Qed.

(** *** The running minimum *)

Lemma default_last_cons {A} (a x : A) (t : list A) :
  default a (last (x :: t)) = default x (last t).
Proof.
  revert a x. induction t as [|y t IH]; intros a x; [done|].
  change (last (x :: y :: t)) with (last (y :: t)).
  by rewrite (IH a y), (IH x y).
Qed.

Lemma minimum_accumulate_from_snoc acc l x :
  minimum_accumulate_from acc (l ++ [x])
  = minimum_accumulate_from acc l
    ++ [Qmin (default acc (last (minimum_accumulate_from acc l))) x].
Proof.
  revert acc. induction l as [|y l IH]; intros acc; simpl; [done|].
  rewrite IH. by rewrite default_last_cons.
Qed.

Lemma minimum_accumulate_snoc l x :
  minimum_accumulate (l ++ [x])
  = minimum_accumulate l
    ++ [match last (minimum_accumulate l) with
        | Some y => Qmin y x
        | None => x
        end].
Proof.
  destruct l as [|a l]; simpl; [done|].
  rewrite minimum_accumulate_from_snoc. do 2 f_equal.
  rewrite <- (default_last_cons a a).
  destruct (last (a :: minimum_accumulate_from a l)) eqn:Hlast; [done|].
  by apply last_None in Hlast.
Qed.

Lemma reverse_minimum_accumulate l :
  reverse (minimum_accumulate (reverse l)) = cummin_right l.
Proof.
  induction l as [|x l IH]; [done|].
  rewrite reverse_cons, minimum_accumulate_snoc, reverse_snoc.
  cbn [cummin_right]. rewrite <- IH.
  destruct (minimum_accumulate (reverse l)) as [|z t _] using rev_ind; [done|].
  by rewrite last_snoc, reverse_snoc.
Qed.

(** A sorted lower bound of a list is a lower bound of its running minimum
    from the right. *)
Lemma cummin_right_ge lo l :
  StronglySorted Qle lo → Forall2 Qle lo l → Forall2 Qle lo (cummin_right l).
Proof.
  intros Hsorted Hle. induction Hle as [|a x lo l Hax Hle IH]; [constructor|].
  apply StronglySorted_inv in Hsorted as [Hsorted Hhd].
  specialize (IH Hsorted). cbn [cummin_right].
  constructor; [|done].
  destruct IH as [|b y lo' l' Hby _]; [done|].
  apply Q.min_glb; [|done].
  apply Forall_cons in Hhd as [Hab _]. by apply Qle_trans with b.
Qed.

(** *** The step-up factors *)

Lemma ecdf_div_ge p (i m : nat) :
  (0 <= p)%Q → (1 ≤ i ≤ m)%nat →
  (p <= p / (inject_Z (Z.of_nat i) / inject_Z (Z.of_nat m)))%Q.
Proof.
  intros Hp [Hi Him].
  assert (0 < inject_Z (Z.of_nat m))%Q as Hm by (rewrite <- (Zlt_Qlt 0); lia).
  assert (0 < inject_Z (Z.of_nat i) / inject_Z (Z.of_nat m))%Q as He.
  { apply Qlt_shift_div_l; [done|]. rewrite Qmult_0_l, <- (Zlt_Qlt 0). lia. }
  assert (inject_Z (Z.of_nat i) / inject_Z (Z.of_nat m) <= 1)%Q as He1.
  { apply Qle_shift_div_r; [done|]. rewrite Qmult_1_l, <- Zle_Qle. lia. }
  apply Qle_shift_div_l; [done|].
  rewrite <- (Qmult_1_r p) at 2. rewrite !(Qmult_comm p).
  by apply Qmult_le_compat_r.
Qed.

Lemma corrected_raw_ge l (first m : nat) :
  (1 ≤ first)%nat → (first + length l ≤ S m)%nat → Forall (Qle 0) l →
  Forall2 Qle l
    (zip_with Qdiv l
       ((λ i, inject_Z (Z.of_nat i) / inject_Z (Z.of_nat m))%Q
          <$> seq first (length l))).
Proof.
  revert first. induction l as [|p l IH]; intros first H1 Hm Hl; [constructor|].
  apply Forall_cons in Hl as [Hp Hl]. simpl in *. constructor.
  - apply ecdf_div_ge; [done|lia].
  - apply IH; [lia|lia|done].
Qed.

Lemma clip_to_one_ge p q : (p <= 1)%Q → (p <= q)%Q → (p <= clip_to_one q)%Q.
Proof. intros Hp Hq. unfold clip_to_one. by destruct (Qle_bool q 1). Qed.

Lemma clip_to_one_le q : (clip_to_one q <= 1)%Q.
Proof.
  unfold clip_to_one. destruct (Qle_bool q 1) eqn:Hq; [|done].
  by apply Qle_bool_iff.
Qed.

Lemma length_cummin_right l : length (cummin_right l) = length l.
Proof. induction l as [|x l IH]; simpl; [done|]. by rewrite IH. Qed.

Lemma length_fdrcorrection_sorted l :
  length (fdrcorrection_sorted l) = length l.
Proof.
  unfold fdrcorrection_sorted.
  rewrite length_fmap, reverse_minimum_accumulate, length_cummin_right.
  unfold ecdf. rewrite length_zip_with, length_fmap, length_seq. lia.
Qed.

(** On ascending p-values in [[0,1]] the adjusted values dominate the raw
    ones and stay at most one. *)
Lemma fdrcorrection_sorted_ge l :
  StronglySorted Qle l → Forall (λ p, 0 <= p <= 1)%Q l →
  Forall2 (λ p f, p <= f <= 1)%Q l (fdrcorrection_sorted l).
Proof.
  intros Hsorted Hl. unfold fdrcorrection_sorted.
  rewrite reverse_minimum_accumulate.
  assert (Forall2 Qle l
    (cummin_right (zip_with Qdiv l (ecdf (length l))))) as Hge.
  { apply cummin_right_ge; [done|]. apply corrected_raw_ge; [lia|lia|].
    eapply Forall_impl; [exact Hl|]. by intros p [? ?]. }
  revert Hge Hl. generalize (cummin_right (zip_with Qdiv l (ecdf (length l)))).
  intros c Hge. induction Hge as [|p f l c Hpf Hge IH]; intros Hl; [constructor|].
  apply Forall_cons in Hl as [[_ Hp1] Hl]. cbn [fmap list_fmap]. constructor.
  - split; [by apply clip_to_one_ge|apply clip_to_one_le].
  - apply IH; [|done]. by apply StronglySorted_inv in Hsorted as [? _].
Qed.

(** *** Sorting indices and scattering back *)

Lemma imap_pair_fst {A} (l : list A) (first : nat) :
  (imap (λ i x, (first + i, x)%nat) l).*1 = seq first (length l).
Proof.
  revert first. induction l as [|x l IH]; intros first; simpl; [done|].
  f_equal; [lia|]. rewrite <- (IH (S first)). f_equal.
  apply imap_ext. intros i y _. simpl. f_equal. lia.
Qed.

Lemma argsort_Permutation pvals : argsort pvals ≡ₚ seq 0 (length pvals).
Proof.
  unfold argsort. rewrite merge_sort_Permutation.
  by rewrite <- (imap_pair_fst pvals 0).
Qed.

Lemma length_argsort pvals : length (argsort pvals) = length pvals.
Proof. by rewrite argsort_Permutation, length_seq. Qed.

Lemma NoDup_argsort pvals : NoDup (argsort pvals).
Proof. rewrite argsort_Permutation. apply NoDup_seq. Qed.

Lemma elem_of_imap_pair pvals i p :
  (i, p) ∈ imap pair pvals ↔ pvals !! i = Some p.
Proof.
  rewrite elem_of_lookup_imap. split.
  - by intros (j & q & [= -> ->] & ?).
  - intros ?. by exists i, p.
Qed.

(** Taking the p-values at the sorting indices gives the sorted p-values. *)
Lemma np_take_argsort pvals :
  np_take pvals (argsort pvals)
  = (merge_sort (key_le snd) (imap pair pvals)).*2.
Proof.
  unfold np_take, argsort. rewrite <- list_fmap_compose.
  apply list_fmap_ext. intros _ [i p] Hin%list_elem_of_lookup_2.
  rewrite merge_sort_Permutation in Hin. apply elem_of_imap_pair in Hin.
  simpl. by rewrite nth_lookup, Hin.
Qed.

Lemma np_take_argsort_sorted pvals :
  StronglySorted Qle (np_take pvals (argsort pvals)).
Proof.
  rewrite np_take_argsort.
  apply (StronglySorted_fmap _ (key_le snd) Qle).
  - intros a b Hab. by apply key_le_Qle in Hab.
  - apply StronglySorted_merge_sort; apply _.
Qed.

Lemma length_scatter ind vals out :
  length (scatter ind vals out) = length out.
Proof.
  unfold scatter. generalize (zip ind vals). intros ivs. revert out.
  induction ivs as [|iv ivs IH]; intros out; simpl; [done|].
  by rewrite IH, length_insert.
Qed.

Lemma scatter_lookup_other ind vals out i :
  i ∉ ind → scatter ind vals out !! i = out !! i.
Proof.
  revert vals out. induction ind as [|j ind IH]; intros vals out Hi; [done|].
  destruct vals as [|v vals]; [done|].
  apply not_elem_of_cons in Hi as [Hij Hi].
  change (scatter ind vals (<[j:=v]> out) !! i = out !! i).
  rewrite IH by done. by apply list_lookup_insert_ne.
Qed.

Lemma scatter_lookup ind vals out r i v :
  NoDup ind → ind !! r = Some i → vals !! r = Some v → (i < length out)%nat →
  scatter ind vals out !! i = Some v.
Proof.
  revert vals out r. induction ind as [|j ind IH]; intros vals out r Hnd Hr Hv Hi;
    [done|].
  destruct vals as [|w vals]; [done|].
  apply NoDup_cons in Hnd as [Hj Hnd].
  change (scatter ind vals (<[j:=w]> out) !! i = Some v).
  destruct r as [|r]; simpl in *.
  - simplify_eq. rewrite scatter_lookup_other by done.
    by apply list_lookup_insert_eq.
  - apply (IH _ _ r); [done..|]. by rewrite length_insert.
Qed.

Lemma length_multipletests_fdr_bh pvals :
  length (multipletests_fdr_bh pvals) = length pvals.
Proof.
  unfold multipletests_fdr_bh. by rewrite length_scatter, length_replicate.
Qed.

(** The Benjamini-Hochberg property: each adjusted value is at least the raw
    p-value at the same position, and at most one. *)
Lemma multipletests_fdr_bh_ge pvals i p :
  Forall (λ p, 0 <= p <= 1)%Q pvals → pvals !! i = Some p →
  ∃ f, multipletests_fdr_bh pvals !! i = Some f ∧ (p <= f <= 1)%Q.
Proof.
  intros Hpvals Hi. unfold multipletests_fdr_bh.
  assert (i ∈ argsort pvals) as [r Hr]%list_elem_of_lookup_1.
  { rewrite argsort_Permutation, elem_of_seq.
    apply lookup_lt_Some in Hi. lia. }
  assert (np_take pvals (argsort pvals) !! r = Some p) as Hp.
  { unfold np_take. rewrite list_lookup_fmap, Hr. simpl.
    by rewrite nth_lookup, Hi. }
  assert (Forall (λ p, 0 <= p <= 1)%Q (np_take pvals (argsort pvals))) as Hge.
  { unfold np_take. apply Forall_fmap, Forall_forall. intros j Hj. simpl.
    rewrite argsort_Permutation, elem_of_seq in Hj.
    destruct (lookup_lt_is_Some_2 pvals j) as [q Hq]; [lia|].
    rewrite nth_lookup, Hq. simpl.
    by apply (Forall_lookup_1 _ _ _ _ Hpvals Hq). }
  apply fdrcorrection_sorted_ge in Hge; [|apply np_take_argsort_sorted].
  destruct (Forall2_lookup_l _ _ _ _ _ Hge Hp) as (f & Hf & Hpf).
  exists f. split; [|done].
  apply (scatter_lookup _ _ _ r); [apply NoDup_argsort|done..|].
  rewrite length_replicate. by apply lookup_lt_Some in Hi.
Qed.

End benjamini_hochberg.

(** ** ORA engine: the returned table *)

Section ora_table.

Implicit Types (study_genes background_genes genes : list string).
Implicit Types (gene_sets : list (string * list string)).
Implicit Types (table : list ora_row).

Lemma List_filter_sublist {A} (f : A → bool) (l : list A) :
  List.filter f l `sublist_of` l.
Proof.
  induction l as [|x l IH]; simpl; [constructor|].
  destruct (f x); by constructor.
Qed.

Lemma List_filter_Permutation {A} (f : A → bool) (l l' : list A) :
  l ≡ₚ l' → List.filter f l ≡ₚ List.filter f l'.
Proof.
  induction 1 as [|x l l' _ IH|x y l|l l' l'' _ IH1 _ IH2]; simpl.
  - done.
  - destruct (f x); by rewrite IH.
  - destruct (f x), (f y); try done. apply perm_swap.
  - by rewrite IH1.
Qed.

Lemma List_filter_fmap {A B} (g : A → B) (f : B → bool) (l : list A) :
  List.filter f (g <$> l) = g <$> List.filter (f ∘ g) l.
Proof.
  induction l as [|x l IH]; [done|].
  cbn [fmap list_fmap List.filter compose]. fold (fmap (M:=list) g).
  destruct (f (g x)); cbn [fmap list_fmap]; by rewrite IH.
Qed.

Lemma elem_of_List_filter {A} (f : A → bool) (l : list A) x :
  x ∈ List.filter f l ↔ x ∈ l ∧ f x = true.
Proof. rewrite !list_elem_of_In. apply filter_In. Qed.

Lemma StronglySorted_List_filter {A} (R : relation A) (f : A → bool) l :
  StronglySorted R l → StronglySorted R (List.filter f l).
Proof.
  induction 1 as [|x l Hl IH Hx]; simpl; [constructor|].
  destruct (f x); [|done]. constructor; [done|].
  apply Forall_forall. intros y [Hy _]%elem_of_List_filter.
  by apply (proj1 (Forall_forall _ _) Hx).
Qed.

(** With no term the frame has no ['p_value'] column and line 144 raises. *)
Lemma perform_ora_no_terms study_genes background_genes :
  perform_ora study_genes [] background_genes = Raise (KeyError ["p_value"]).
Proof. done. Qed.

(** With at least one term the call returns the sorted, filtered table. *)
Lemma perform_ora_terms study_genes gene_sets background_genes :
  gene_sets ≠ [] →
  perform_ora study_genes gene_sets background_genes
  = Ok (select_columns <$>
          List.filter (λ r, Qle_bool r.2 alpha)
            (sort_values_FDR (ora_table study_genes gene_sets background_genes))).
Proof.
  intros Hne. unfold perform_ora, ora_table, DataFrame_getitem.
  destruct gene_sets as [|item gene_sets]; [done|].
  by rewrite bool_decide_eq_true_2 by (vm_compute; set_solver).
Qed.

Lemma perform_ora_Ok study_genes gene_sets background_genes table :
  perform_ora study_genes gene_sets background_genes = Ok table →
  gene_sets ≠ [] ∧
  table = select_columns <$>
            List.filter (λ r, Qle_bool r.2 alpha)
              (sort_values_FDR (ora_table study_genes gene_sets background_genes)).
Proof.
  destruct gene_sets as [|item gene_sets]; [done|].
  rewrite perform_ora_terms by done. by intros [= <-].
Qed.

(** The returned rows are, up to order, the significant rows of the table. *)
Lemma perform_ora_Permutation study_genes gene_sets background_genes table :
  perform_ora study_genes gene_sets background_genes = Ok table →
  table ≡ₚ List.filter significant
             (select_columns <$> ora_table study_genes gene_sets background_genes).
Proof.
  intros [_ ->]%perform_ora_Ok. rewrite List_filter_fmap.
  apply fmap_Permutation, List_filter_Permutation.
  unfold sort_values_FDR. apply merge_sort_Permutation.
Qed.

Lemma p_value_unit_interval study_genes gene_sets background_genes :
  Forall (λ r, 0 <= rec_p_value r <= 1)%Q
    (ora_results study_genes gene_sets background_genes).
Proof.
  apply Forall_forall. intros r [[term genes] [_ ->]]%elem_of_ora_results.
  cbn [ora_term rec_p_value]. case_match; [done|].
  rewrite hypergeom_sf_upper_tail.
  apply upper_tail_bounds; apply subseteq_size; set_solver.
Qed.

Lemma length_ora_table study_genes gene_sets background_genes :
  length (ora_table study_genes gene_sets background_genes) = length gene_sets.
Proof.
  unfold ora_table.
  rewrite length_zip_with, length_multipletests_fdr_bh, length_fmap.
  rewrite length_ora_results. lia.
Qed.

Lemma fst_ora_table study_genes gene_sets background_genes :
  (ora_table study_genes gene_sets background_genes).*1
  = ora_results study_genes gene_sets background_genes.
Proof.
  unfold ora_table. apply fst_zip.
  by rewrite length_multipletests_fdr_bh, length_fmap.
Qed.

(** In the table every adjusted value lies between the raw p-value of its
    row and one. *)
Lemma ora_table_FDR_ge study_genes gene_sets background_genes r f :
  (r, f) ∈ ora_table study_genes gene_sets background_genes →
  r ∈ ora_results study_genes gene_sets background_genes
  ∧ (rec_p_value r <= f <= 1)%Q.
Proof.
  unfold ora_table.
  intros (i & r' & f' & [= <- <-] & Hr & Hf)%elem_of_lookup_zip_with.
  split; [by eapply list_elem_of_lookup_2|].
  destruct (multipletests_fdr_bh_ge
    (rec_p_value <$> ora_results study_genes gene_sets background_genes)
    i (rec_p_value r)) as (f' & Hf' & Hle).
  - apply Forall_fmap. apply p_value_unit_interval.
  - by rewrite list_lookup_fmap, Hr.
  - by simplify_eq.
Qed.

Lemma elem_of_perform_ora study_genes gene_sets background_genes table row :
  perform_ora study_genes gene_sets background_genes = Ok table →
  row ∈ table ↔
  (∃ rf, rf ∈ ora_table study_genes gene_sets background_genes
         ∧ row = select_columns rf)
  ∧ (FDR row <= 1 # 20)%Q.
Proof.
  intros ->%perform_ora_Permutation.
  rewrite elem_of_List_filter, list_elem_of_fmap.
  unfold significant, alpha. rewrite Qle_bool_iff. naive_solver.
Qed.

(** C1. For every term the record holds the counts [k], [K], [n], [N] of the
    sets (study hits in the term, background genes in the term, study genes in
    the background, background), and its p-value is [1] when [K = 0] and
    otherwise the hypergeometric upper tail [P(X ≥ k)] for population [N], [K]
    success states and [n] draws; a term whose genes are all outside the
    background has p-value [1].  On the worked example the p-values are 1/3,
    5/6, 13/14 and 5/6, and a term outside the background gets 1. *)
Theorem p_value_hypergeometric :
  (∀ study_genes gene_sets background_genes,
     Forall2 (λ item r,
         let K := size (py_set item.2 ∩ py_set background_genes) in
         let k := size (py_set study_genes ∩ py_set item.2
                        ∩ py_set background_genes) in
         let n := size (py_set study_genes ∩ py_set background_genes) in
         let N := size (py_set background_genes) in
         rec_term r = item.1
         ∧ rec_k r = k ∧ rec_K r = K ∧ rec_n r = n ∧ rec_N r = N
         ∧ (K = 0%nat → rec_p_value r = 1%Q)
         ∧ (K ≠ 0%nat → rec_p_value r = upper_tail N K n k)
         ∧ ((∀ g, g ∈ item.2 → g ∉ background_genes) →
            rec_p_value r = 1%Q))
       gene_sets (ora_results study_genes gene_sets background_genes))
  ∧ Forall2 (λ r p, rec_p_value r == p)%Q
      (ora_results example_study example_gene_sets example_background)
      [1 # 3; 5 # 6; 13 # 14; 5 # 6]%Q
  ∧ rec_p_value <$>
      ora_results example_study [("Z", ["g11"; "g12"])] example_background
    = [1%Q].
Proof.
  split_and!; [|by repeat constructor|by vm_compute].
  intros study_genes gene_sets background_genes.
  unfold ora_results. apply Forall2_fmap_r, Forall_Forall2_diag, Forall_forall.
  intros [term genes] _.
  cbn [compose ora_term rec_term rec_K rec_N rec_n rec_k rec_p_value fst snd].
  rewrite <- (assoc_L (∩) (py_set study_genes)).
  split_and!; try done.
  - by intros ->.
  - intros HK. apply Nat.eqb_neq in HK. rewrite HK.
    apply hypergeom_sf_upper_tail.
  - intros Hdisjoint.
    assert (py_set genes ∩ py_set background_genes = ∅) as ->; [|done].
    unfold py_set. apply set_eq. intros g. set_solver.
Qed.

Lemma p_value_hypergeometric_witness :
  ∃ r, ora_results example_study example_gene_sets example_background !! 0%nat
       = Some r
    ∧ rec_term r = "A"
    ∧ (rec_k r, rec_K r, rec_n r, rec_N r) = (2, 3, 4, 10)%nat
    ∧ rec_p_value r = upper_tail 10 3 4 2
    ∧ (upper_tail 10 3 4 2 == 1 # 3)%Q.
Proof.
  destruct p_value_hypergeometric as [Hall _].
  pose proof (Forall2_lookup_l _ _ _ 0%nat _
                (Hall example_study example_gene_sets example_background)
                eq_refl) as (r & Hr & Hterm & Hk & HK & Hn & HN & _ & Hp & _).
  exists r. split; [exact Hr|]. split; [exact Hterm|].
  split; [by rewrite Hk, HK, Hn, HN|].
  split; [|by vm_compute].
  apply Hp. by vm_compute.
Defined.

(** C6. In every row of the returned table the FDR-adjusted value is at least
    the raw p-value. *)
Theorem FDR_dominates_p_value study_genes gene_sets background_genes table :
  perform_ora study_genes gene_sets background_genes = Ok table →
  Forall (λ row, p_value row <= FDR row)%Q table.
Proof.
  intros Hok. apply Forall_forall. intros row Hrow.
  apply (elem_of_perform_ora _ _ _ _ _ Hok) in Hrow as [([r f] & Hrf & ->) _].
  apply ora_table_FDR_ge in Hrf as [_ [Hle _]]. done.
Qed.

Lemma FDR_dominates_p_value_witness :
  ∃ table, perform_ora small_study small_gene_sets small_background = Ok table
           ∧ table ≠ [] ∧ Forall (λ row, p_value row <= FDR row)%Q table.
Proof.
  eexists. split; [vm_compute; reflexivity|]. split; [done|].
  apply (FDR_dominates_p_value small_study small_gene_sets small_background).
  vm_compute. reflexivity.
Defined.

(** A row whose raw p-value is one has an FDR of at least one and is not
    significant. *)
Lemma significant_all_one study_genes gene_sets background_genes :
  let rows := select_columns <$> ora_table study_genes gene_sets background_genes in
  Forall (λ row, p_value row == 1)%Q rows → List.filter significant rows = [].
Proof.
  intros rows Hone. apply filter_all_false. intros row Hrow.
  pose proof (proj1 (Forall_forall _ _) Hone row Hrow) as Hp.
  apply list_elem_of_fmap in Hrow as ([r f] & -> & Hrf).
  apply ora_table_FDR_ge in Hrf as [_ [Hle _]].
  cbn [select_columns p_value fst snd] in Hp.
  unfold significant, alpha. cbn [select_columns FDR fst snd].
  apply not_true_is_false. rewrite Qle_bool_iff. intros Hf.
  rewrite Hp in Hle. by apply (Qle_trans _ _ _ Hle) in Hf.
Qed.

(** C2. The returned table is in ascending order of FDR and holds exactly
    the rows of the table whose FDR is at most 0.05; when every row is
    significant all rows are returned, and when every raw p-value is one the
    returned table is empty. *)
Theorem perform_ora_sorted_significant
    study_genes gene_sets background_genes table :
  perform_ora study_genes gene_sets background_genes = Ok table →
  let rows := select_columns <$> ora_table study_genes gene_sets background_genes in
  StronglySorted (λ r1 r2, FDR r1 <= FDR r2)%Q table
  ∧ table ≡ₚ List.filter significant rows
  ∧ (∀ row, row ∈ table ↔ row ∈ rows ∧ (FDR row <= 1 # 20)%Q)
  ∧ (Forall (λ row, FDR row <= 1 # 20)%Q rows → table ≡ₚ rows)
  ∧ (Forall (λ row, p_value row == 1)%Q rows → table = []).
Proof.
  intros Hok rows. pose proof (perform_ora_Permutation _ _ _ _ Hok) as Hperm.
  fold rows in Hperm. split_and!.
  - apply perform_ora_Ok in Hok as [_ ->].
    apply (StronglySorted_fmap _ (key_le snd)).
    { intros a b Hab. by apply key_le_Qle in Hab. }
    apply StronglySorted_List_filter.
    unfold sort_values_FDR. apply StronglySorted_merge_sort; apply _.
  - done.
  - intros row. rewrite Hperm, elem_of_List_filter.
    unfold significant, alpha. by rewrite Qle_bool_iff.
  - intros Hall. rewrite Hperm, filter_all_true; [done|].
    intros row Hrow. unfold significant, alpha. apply Qle_bool_iff.
    by apply (proj1 (Forall_forall _ _) Hall).
  - intros Hone. apply Permutation_nil_r. rewrite Hperm.
    unfold rows in *. by rewrite (significant_all_one _ _ _ Hone).
Qed.

Lemma perform_ora_sorted_significant_witness :
  ∃ table, perform_ora small_study small_gene_sets small_background = Ok table
    ∧ term <$> table = ["T"]
    ∧ StronglySorted (λ r1 r2, FDR r1 <= FDR r2)%Q table
    ∧ ∀ row, row ∈ table ↔
        row ∈ select_columns <$>
                ora_table small_study small_gene_sets small_background
        ∧ (FDR row <= 1 # 20)%Q.
Proof.
  eexists. split; [vm_compute; reflexivity|]. split; [done|].
  destruct (perform_ora_sorted_significant
              small_study small_gene_sets small_background _ eq_refl)
    as (Hsorted & _ & Hrows & _).
  split; [exact Hsorted|exact Hrows].
Defined.

(** Over a list whose images under [f] are pairwise distinct, [f] is
    injective. *)
Lemma NoDup_fmap_elem_inj {A B} (f : A → B) (l : list A) x y :
  NoDup (f <$> l) → x ∈ l → y ∈ l → f x = f y → x = y.
Proof.
  intros Hnd [i Hi]%list_elem_of_lookup [j Hj]%list_elem_of_lookup Hxy.
  assert (i = j) as ->; [|congruence].
  apply (NoDup_lookup (f <$> l) i j (f x)); [done|..].
  - by rewrite list_lookup_fmap, Hi.
  - by rewrite list_lookup_fmap, Hj, Hxy.
Qed.

Lemma ora_table_terms study_genes gene_sets background_genes :
  term <$> (select_columns <$> ora_table study_genes gene_sets background_genes)
  = gene_sets.*1.
Proof.
  rewrite <- (ora_results_terms study_genes gene_sets background_genes).
  rewrite <- fst_ora_table, <- !list_fmap_compose. done.
Qed.

Lemma FDR_threshold_dec (row : ora_row) :
  {(FDR row <= 1 # 20)%Q} + {(1 # 20 < FDR row)%Q}.
Proof. destruct (Qlt_le_dec (1 # 20) (FDR row)); [by right|by left]. Qed.

(** C7, as the code has it. The terms of the returned table are terms of
    [gene_sets], each returned at most as often as it is listed there.  With
    pairwise distinct term names, as the keys of a dictionary are, the
    inclusion is strict exactly when some row of the table has an FDR above
    0.05. *)
Theorem perform_ora_terms_subset study_genes gene_sets background_genes table :
  perform_ora study_genes gene_sets background_genes = Ok table →
  let rows := select_columns <$> ora_table study_genes gene_sets background_genes in
  term <$> table ⊆+ gene_sets.*1
  ∧ table_terms table ⊆ input_terms gene_sets
  ∧ (NoDup gene_sets.*1 →
     table_terms table ⊂ input_terms gene_sets
     ↔ ∃ row, row ∈ rows ∧ (1 # 20 < FDR row)%Q).
Proof.
  intros Hok rows.
  pose proof (perform_ora_Permutation _ _ _ _ Hok) as Hperm. fold rows in Hperm.
  pose proof (ora_table_terms study_genes gene_sets background_genes) as Hterms.
  fold rows in Hterms.
  assert (term <$> table ⊆+ gene_sets.*1) as Hsub.
  { rewrite Hperm, <- Hterms.
    apply fmap_submseteq, sublist_submseteq, List_filter_sublist. }
  assert (table_terms table ⊆ input_terms gene_sets) as Hincl.
  { unfold table_terms, input_terms. intros t Ht.
    apply elem_of_list_to_set. apply elem_of_list_to_set in Ht.
    by eapply elem_of_submseteq. }
  split_and!; [done..|].
  intros Hnd. rewrite <- Hterms in Hnd. split.
  - intros [_ Hproper].
    destruct (Forall_Exists_dec (λ row, FDR row <= 1 # 20)%Q
                (λ row, 1 # 20 < FDR row)%Q
                FDR_threshold_dec rows)
      as [Hall|Hex]; [|by apply Exists_exists in Hex].
    destruct Hproper. unfold table_terms, input_terms.
    rewrite <- Hterms, Hperm, filter_all_true; [done|].
    intros row Hrow. unfold significant, alpha. apply Qle_bool_iff.
    by apply (proj1 (Forall_forall _ _) Hall).
  - intros (row & Hrow & Hlt). split; [done|]. intros Hrev.
    assert (term row ∈ table_terms table) as Hin.
    { apply Hrev. unfold input_terms. apply elem_of_list_to_set.
      rewrite <- Hterms. by apply list_elem_of_fmap_2. }
    unfold table_terms in Hin. apply elem_of_list_to_set in Hin.
    apply list_elem_of_fmap in Hin as (row' & Heq & Hrow').
    rewrite Hperm in Hrow'. apply elem_of_List_filter in Hrow' as [Hrow' Hsig].
    assert (row = row') as <- by by eapply (NoDup_fmap_elem_inj term rows).
    unfold significant, alpha in Hsig. apply Qle_bool_iff in Hsig.
    by apply Qle_not_lt in Hsig.
Qed.

Lemma perform_ora_terms_subset_witness :
  ∃ table, perform_ora small_study small_gene_sets small_background = Ok table
    ∧ term <$> table = ["T"]
    ∧ NoDup small_gene_sets.*1
    ∧ term <$> table ⊆+ small_gene_sets.*1
    ∧ table_terms table ⊆ input_terms small_gene_sets
    ∧ table_terms table ⊂ input_terms small_gene_sets.
Proof.
  eexists. split; [vm_compute; reflexivity|]. split; [done|].
  assert (NoDup small_gene_sets.*1) as Hnd.
  { cbn. apply NoDup_cons. split; [|apply NoDup_singleton].
    rewrite list_elem_of_singleton. discriminate. }
  split; [exact Hnd|].
  destruct (perform_ora_terms_subset
              small_study small_gene_sets small_background _ eq_refl)
    as (Hsub & Hincl & Hstrict).
  split; [exact Hsub|]. split; [exact Hincl|].
  apply (Hstrict Hnd).
  eexists. split.
  - apply list_elem_of_fmap_2, (list_elem_of_lookup_2 _ 1%nat).
    vm_compute. reflexivity.
  - vm_compute. reflexivity.
Defined.

(** C7, as stated, fails: when the only term is significant the returned
    terms are all the input terms. *)
Lemma perform_ora_terms_not_strict :
  ∃ table, perform_ora small_study single_gene_set small_background = Ok table
    ∧ ¬ (table_terms table ⊂ input_terms single_gene_set).
Proof.
  eexists. split; [vm_compute; reflexivity|].
  intros [_ Hnot]. apply Hnot. intros t.
  unfold input_terms, table_terms. cbn. set_solver.
Qed.

(** C3. With an empty [gene_sets] the call does not return a table: the
    frame built from no records has no ['p_value'] column and the column
    access raises [KeyError]. *)
Theorem perform_ora_no_terms_raises study_genes background_genes :
  perform_ora study_genes [] background_genes = Raise (KeyError ["p_value"])
  ∧ ¬ ∃ table, perform_ora study_genes [] background_genes = Ok table.
Proof.
  rewrite perform_ora_no_terms. split; [done|]. by intros [table ?].
Qed.

(** An empty study or an empty background, with at least one term, gives the
    empty table. *)
Lemma perform_ora_all_one study_genes gene_sets background_genes :
  gene_sets ≠ [] →
  Forall (λ r, rec_p_value r == 1)%Q
    (ora_results study_genes gene_sets background_genes) →
  perform_ora study_genes gene_sets background_genes = Ok [].
Proof.
  intros Hne Hone.
  pose proof (perform_ora_terms study_genes _ background_genes Hne) as Hok.
  rewrite Hok. f_equal. apply Permutation_nil_r.
  rewrite (perform_ora_Permutation _ _ _ _ Hok).
  rewrite significant_all_one; [done|].
  apply Forall_fmap, Forall_forall. intros [r f] Hrf.
  cbn [compose select_columns p_value fst].
  apply ora_table_FDR_ge in Hrf as [Hr _].
  by apply (proj1 (Forall_forall _ _) Hone).
Qed.

Lemma perform_ora_empty_study gene_sets background_genes :
  gene_sets ≠ [] → perform_ora [] gene_sets background_genes = Ok [].
Proof.
  intros Hne. apply perform_ora_all_one; [done|].
  apply Forall_forall. intros r [[term genes] [_ ->]]%elem_of_ora_results.
  cbn [ora_term rec_p_value]. case_match; [done|].
  rewrite hypergeom_sf_upper_tail.
  assert (py_set [] = (∅ : gset string)) as -> by done.
  rewrite !(left_absorb_L ∅ (∩)), size_empty.
  apply upper_tail_0; [apply subseteq_size; set_solver|lia].
Qed.

Lemma perform_ora_empty_background study_genes gene_sets :
  gene_sets ≠ [] → perform_ora study_genes gene_sets [] = Ok [].
Proof.
  intros Hne. apply perform_ora_all_one; [done|].
  apply Forall_forall. intros r [[term genes] [_ ->]]%elem_of_ora_results.
  cbn [ora_term rec_p_value].
  assert (py_set [] = (∅ : gset string)) as -> by done.
  by rewrite (right_absorb_L ∅ (∩)), size_empty.
Qed.

(** C10. In every record, and in every row of the returned table, the
    [study_genes] list is duplicate-free, holds exactly the genes that are at
    once in the study, in the term and in the background, and has [k]
    ([study_count]) elements. *)
Theorem study_genes_intersection (study : list string) gene_sets
    (background : list string) :
  Forall (λ r, ∃ genes, (rec_term r, genes) ∈ gene_sets
       ∧ contributing_genes study genes background (rec_study_genes r) (rec_k r))
    (ora_results study gene_sets background)
  ∧ ∀ table, perform_ora study gene_sets background = Ok table →
      Forall (λ row, ∃ genes, (term row, genes) ∈ gene_sets
         ∧ contributing_genes study genes background
             (study_genes row) (study_count row))
        table.
Proof.
  assert (Forall (λ r, ∃ genes, (rec_term r, genes) ∈ gene_sets
       ∧ contributing_genes study genes background (rec_study_genes r) (rec_k r))
    (ora_results study gene_sets background)) as Hrecords.
  { apply Forall_forall. intros r [[t genes] [Hitem ->]]%elem_of_ora_results.
    exists genes. cbn [ora_term rec_term rec_study_genes rec_k].
    split; [done|]. split_and!; [apply NoDup_elements| |done].
    intros g. unfold py_set. rewrite elem_of_elements. set_solver. }
  split; [done|].
  intros table Hok. apply Forall_forall. intros row Hrow.
  apply (elem_of_perform_ora _ _ _ _ _ Hok) in Hrow as [([r f] & Hrf & ->) _].
  apply ora_table_FDR_ge in Hrf as [Hr _].
  by apply (proj1 (Forall_forall _ _) Hrecords).
Qed.

Lemma study_genes_intersection_witness :
  ∃ table, perform_ora small_study small_gene_sets small_background = Ok table
    ∧ table ≠ []
    ∧ Forall (λ row, ∃ genes, (term row, genes) ∈ small_gene_sets
         ∧ contributing_genes small_study genes small_background
             (study_genes row) (study_count row))
        table.
Proof.
  eexists. split; [vm_compute; reflexivity|]. split; [done|].
  apply (study_genes_intersection small_study small_gene_sets small_background).
  vm_compute. reflexivity.
Defined.

End ora_table.

(** ** Scatter plotter *)

Section scatter_plot.

Global Instance ratio_le_trans : Transitive ratio_le.
Proof.
  intros [a x] [b y] [c z]. unfold ratio_le. cbn [snd].
  destruct x as [x| | |], y as [y| | |], z as [z| | |]; cbn; try done.
  rewrite !Is_true_true, !Qle_bool_iff. apply Qle_trans.
Qed.

Global Instance ratio_le_total : Total ratio_le.
Proof.
  intros [a x] [b y]. unfold ratio_le. cbn [snd].
  destruct x as [x| | |], y as [y| | |]; cbn; auto.
  rewrite !Is_true_true, !Qle_bool_iff.
  destruct (Qlt_le_dec x y) as [H|H]; [left|right]; [|done].
  by apply Qlt_le_weak.
Qed.

(** With a positive [top_n] the rows drawn are the first [top_n] rows in
    ascending order of the ratio: no row left out has a smaller ratio than a
    row drawn. *)
Lemma plot_top_n_lowest_ratio result_df min_study_count max_pval (top_n : Z) :
  (0 < top_n)%Z →
  let ranked :=
    plot_enrichment_scatter_rows result_df min_study_count max_pval None in
  plot_enrichment_scatter_rows result_df min_study_count max_pval (Some top_n)
  = take (Z.to_nat top_n) ranked
  ∧ ∀ drawn left_out,
      drawn ∈ take (Z.to_nat top_n) ranked →
      left_out ∈ drop (Z.to_nat top_n) ranked →
      ratio_le drawn left_out.
Proof.
  intros Htop ranked. split.
  - unfold ranked, plot_enrichment_scatter_rows, DataFrame_head.
    destruct (Z.eqb_spec top_n 0) as [?|_]; [lia|].
    destruct (Z.leb_spec 0 top_n) as [_|?]; [done|lia].
  - intros drawn left_out Hdrawn Hleft.
    assert (StronglySorted ratio_le ranked) as Hsorted.
    { unfold ranked, plot_enrichment_scatter_rows.
      apply StronglySorted_merge_sort; apply _. }
    rewrite <- (take_drop (Z.to_nat top_n) ranked) in Hsorted.
    by apply (StronglySorted_app_1_elem_of _ _ _ _ _ Hsorted).
Qed.

(** C8 fails on the code: of two terms with ratios 1/4 and 3/4, [top_n = 1]
    draws the term with the smaller ratio and leaves out the one with the
    largest. *)
Theorem plot_top_n_draws_smallest_ratio :
  plot_enrichment_scatter_rows [term_low; term_high] 1 None (Some 1%Z)
  = [(term_low, Finite (1 # 4))]
  ∧ plot_enrichment_scatter_rows [term_high; term_low] 1 None (Some 1%Z)
    = [(term_low, Finite (1 # 4))]
  ∧ true_divide (er_study_count term_high) (er_background_count term_high)
    = Finite (3 # 4).
Proof. by vm_compute. Qed.

End scatter_plot.

(** ** Pie-chart script *)

Section pie_chart.

Import PieChart.

Implicit Types (input_bed : list bed_row) (s : Series).

Lemma tx_region_comprehension input_bed :
  comprehension (λ r, list_getitem (split semicolon (name r)) 0) input_bed
  = Ok (tx_region_of <$> input_bed).
Proof.
  apply comprehension_total. intros r _.
  unfold list_getitem, tx_region_of. by rewrite split_lookup_0.
Qed.

Lemma Series_drop_Ok labels s s' :
  Series_drop labels s = Ok s' →
  (∀ l, l ∈ labels → l ∈ s.*1)
  ∧ s' = List.filter (λ kv, bool_decide (kv.1 ∉ labels)) s.
Proof.
  unfold Series_drop.
  destruct (List.filter _ labels) as [|missing rest] eqn:Hmissing; [|done].
  intros [= <-]. split; [|done]. intros l Hl.
  destruct (decide (l ∈ s.*1)) as [|Hnot]; [done|].
  assert (l ∈ List.filter (λ l, bool_decide (l ∉ s.*1)) labels) as Hin.
  { apply elem_of_List_filter. split; [done|]. by apply bool_decide_eq_true_2. }
  rewrite Hmissing in Hin. by apply not_elem_of_nil in Hin.
Qed.

Lemma snd_Series_rename mapper s : (Series_rename mapper s).*2 = s.*2.
Proof.
  unfold Series_rename. rewrite <- list_fmap_compose.
  by apply list_fmap_ext.
Qed.

Lemma legend_labels s (labels : list string) legend :
  comprehension (λ label, v ← Series_getitem s label; mret (label, v)) labels
  = Ok legend →
  legend.*1 = labels.
Proof.
  revert legend. induction labels as [|label labels IH]; intros legend; simpl.
  - by intros [= <-].
  - destruct (Series_getitem s label) as [v|]; [|done]. simpl.
    destruct (comprehension _ labels) as [vs|]; [|done]. simpl.
    intros [= <-]. simpl. f_equal. by apply IH.
Qed.

Lemma groupby_count_size input_bed key :
  length (List.filter (String.eqb key) (tx_region_of <$> input_bed))
  = rows_in_category input_bed key.
Proof.
  unfold rows_in_category. rewrite List_filter_fmap, length_fmap. f_equal.
  apply filter_ext. intros r. apply String.eqb_sym.
Qed.

(** The categories that remain after the drop: ascending, distinct, the
    tokens of the input other than the three excluded ones. *)
Lemma retained_categories (tokens : list string) :
  let categories :=
    List.filter (λ c, bool_decide (c ∉ excluded))
      (merge_sort String.le (remove_dups tokens)) in
  StronglySorted String.le categories ∧ NoDup categories
  ∧ ∀ c, c ∈ categories ↔ c ∈ tokens ∧ c ∉ excluded.
Proof.
  intros categories. split_and!.
  - apply StronglySorted_List_filter, StronglySorted_merge_sort; apply _.
  - eapply sublist_NoDup; [|apply List_filter_sublist].
    rewrite merge_sort_Permutation. apply NoDup_remove_dups.
  - intros c. unfold categories.
    rewrite elem_of_List_filter, merge_sort_Permutation, elem_of_remove_dups.
    by rewrite bool_decide_eq_true.
Qed.

(** What a completed run hands to matplotlib. *)
Lemma main_Ok input_bed palette chart :
  main input_bed palette = Ok chart →
  let categories :=
    List.filter (λ c, bool_decide (c ∉ excluded))
      (merge_sort String.le (remove_dups (tx_region_of <$> input_bed))) in
  (∀ c, c ∈ excluded → c ∈ tx_region_of <$> input_bed)
  ∧ wedges chart
    = Series_rename (py_dict (zip categories renamed_columns))
        ((λ c, (c, rows_in_category input_bed c)) <$> categories)
  ∧ comprehension
      (λ label, v ← Series_getitem (wedges chart) label; mret (label, v))
      renamed_columns
    = Ok (legend chart).
Proof.
  unfold main. rewrite tx_region_comprehension. cbn [mbind result_bind].
  destruct (Series_drop _ _) as [bs|] eqn:Hdrop; [|done]. cbn [mbind result_bind].
  apply Series_drop_Ok in Hdrop as [Hpresent ->].
  assert (List.filter (λ kv, bool_decide (kv.1 ∉ excluded))
            (groupby_count (tx_region_of <$> input_bed))
          = (λ c, (c, rows_in_category input_bed c)) <$>
              List.filter (λ c, bool_decide (c ∉ excluded))
                (merge_sort String.le (remove_dups (tx_region_of <$> input_bed))))
    as Hbs.
  { unfold groupby_count. rewrite List_filter_fmap.
    apply list_fmap_ext. intros _ c _. by rewrite groupby_count_size. }
  rewrite Hbs. rewrite <- list_fmap_compose.
  assert (fst ∘ (λ c, (c, rows_in_category input_bed c)) = id) as -> by done.
  rewrite list_fmap_id.
  destruct (comprehension _ renamed_columns) as [labels|] eqn:Hlabels; [|done].
  cbn [mbind result_bind mret result_ret]. intros [= <-]. cbn [wedges legend].
  split_and!; [|done|done].
  intros c Hc. specialize (Hpresent c Hc).
  unfold groupby_count in Hpresent. rewrite <- list_fmap_compose in Hpresent.
  apply list_elem_of_fmap in Hpresent as (c' & -> & Hc').
  by rewrite merge_sort_Permutation, elem_of_remove_dups in Hc'.
Qed.

(** C9, as the code has it. When the script completes, the three excluded
    categories all occur in the input, the wedge sizes are the numbers of
    lines of the remaining categories in ascending order of category (so no
    line tagged exon, start_codon or stop_codon is counted), the legend labels
    are CDS, 5'UTR, Intron, 3'UTR, and with exactly four remaining categories
    each label shows the number of lines of the category at its position. *)
Theorem pie_chart_counts input_bed palette chart :
  main input_bed palette = Ok chart →
  ∃ categories,
    StronglySorted String.le categories ∧ NoDup categories
    ∧ (∀ c, c ∈ categories ↔
            (∃ r, r ∈ input_bed ∧ tx_region_of r = c) ∧ c ∉ excluded)
    ∧ (∀ c, c ∈ excluded → ∃ r, r ∈ input_bed ∧ tx_region_of r = c)
    ∧ (wedges chart).*2 = rows_in_category input_bed <$> categories
    ∧ (legend chart).*1 = renamed_columns
    ∧ (length categories = 4%nat →
       (wedges chart).*1 = renamed_columns
       ∧ legend chart
         = zip renamed_columns
             (Scalar <$> (rows_in_category input_bed <$> categories))).
Proof.
  intros (Hpresent & Hwedges & Hlegend)%main_Ok.
  destruct (retained_categories (tx_region_of <$> input_bed))
    as (Hsorted & Hnodup & Hin).
  remember (List.filter (λ c, bool_decide (c ∉ excluded))
              (merge_sort String.le (remove_dups (tx_region_of <$> input_bed))))
    as categories eqn:Hcat.
  assert (∀ c, c ∈ tx_region_of <$> input_bed ↔
               ∃ r, r ∈ input_bed ∧ tx_region_of r = c) as Htoken.
  { intros c. rewrite list_elem_of_fmap. naive_solver. }
  exists categories. split_and!; [done|done|..].
  - intros c. by rewrite Hin, Htoken.
  - intros c Hc. by apply Htoken, Hpresent.
  - rewrite Hwedges, snd_Series_rename, <- list_fmap_compose.
    by apply list_fmap_ext.
  - by eapply legend_labels.
  - intros Hfour.
    destruct categories as [|c1 [|c2 [|c3 [|c4 [|c5 rest]]]]]; try done.
    apply NoDup_cons in Hnodup as [Hc1 Hnodup].
    apply NoDup_cons in Hnodup as [Hc2 Hnodup].
    apply NoDup_cons in Hnodup as [Hc3 _].
    assert (c1 ≠ c2 ∧ c1 ≠ c3 ∧ c1 ≠ c4 ∧ c2 ≠ c3 ∧ c2 ≠ c4 ∧ c3 ≠ c4)
      as (? & ? & ? & ? & ? & ?) by set_solver.
    assert (wedges chart
            = [("CDS", rows_in_category input_bed c1);
               ("5'UTR", rows_in_category input_bed c2);
               ("Intron", rows_in_category input_bed c3);
               ("3'UTR", rows_in_category input_bed c4)]) as Hw.
    { rewrite Hwedges. unfold Series_rename, py_dict, renamed_columns.
      cbn [zip zip_with foldl fmap list_fmap fst snd].
      by simplify_map_eq. }
    rewrite Hw in Hlegend |- *. split; [done|].
    assert (∀ a b : list (string * series_item), Ok a = Ok b → a = b) as Hinj
      by (by intros a b [= ->]).
    apply Hinj. rewrite <- Hlegend. by vm_compute.
Qed.

Lemma pie_chart_counts_witness :
  ∃ chart, main full_bed "mouse" = Ok chart
    ∧ wedges chart = [("CDS", 1); ("5'UTR", 1); ("Intron", 2); ("3'UTR", 1)]%nat
    ∧ ∃ categories,
        (wedges chart).*2 = rows_in_category full_bed <$> categories
        ∧ (∀ c, c ∈ categories ↔
            (∃ r, r ∈ full_bed ∧ tx_region_of r = c) ∧ c ∉ excluded).
Proof.
  eexists. split; [vm_compute; reflexivity|]. split; [done|].
  destruct (pie_chart_counts full_bed "mouse" _ eq_refl)
    as (categories & _ & _ & Hin & _ & Hvalues & _).
  exists categories. split; [exact Hvalues|exact Hin].
Defined.

(** C9, as stated, fails on its own example: on the lines named "CDS;x",
    "intron;y", "exon;z" the drop of the three categories raises [KeyError],
    so there are no final counts. *)
Lemma pie_chart_example_raises :
  main example_bed "mouse" = Raise (KeyError ["start_codon"; "stop_codon"])
  ∧ ¬ ∃ chart, main example_bed "mouse" = Ok chart.
Proof.
  assert (main example_bed "mouse"
          = Raise (KeyError ["start_codon"; "stop_codon"])) as Hraise
    by (by vm_compute).
  split; [done|]. intros [chart Hok]. by rewrite Hraise in Hok.
Qed.

End pie_chart.

(** * Further properties of the code *)

(** ** Identifier mapper *)

Section identifier_mapper_more.

Implicit Types (ids : list string) (m : gmap string string).

Lemma convert_ensembl_id_omap ids m :
  convert_ensembl_id ids m = Ok (omap (λ gene, m !! version_stripped gene) ids).
Proof.
  unfold convert_ensembl_id.
  rewrite (comprehension_total _ version_stripped).
  - cbn [mbind result_bind]. rewrite lookup_comprehension. f_equal.
    induction ids as [|x ids IH]; [done|].
    cbn [fmap list_fmap omap list_omap]. rewrite <- IH.
    by destruct (m !! version_stripped x).
  - intros gene _. unfold list_getitem. by rewrite split_lookup_0.
Qed.

Lemma length_omap_le {A B} (f : A → option B) (l : list A) :
  (length (omap f l) ≤ length l)%nat.
Proof.
  induction l as [|x l IH]; [done|].
  cbn [omap list_omap]. destruct (f x); simpl; lia.
Qed.



(** X1. Converting a concatenation gives the concatenation of the conversions. *)
Theorem convert_ensembl_id_app ids1 ids2 m :
  convert_ensembl_id (ids1 ++ ids2) m
  = (symbols1 ← convert_ensembl_id ids1 m;
     symbols2 ← convert_ensembl_id ids2 m;
     mret (symbols1 ++ symbols2)).
Proof. rewrite !convert_ensembl_id_omap. by rewrite omap_app. Qed.

(** X2. The result is never longer than the input and holds nothing but values
    the mapping gives to the version-stripped form of some input. *)
Theorem convert_ensembl_id_values ids m symbols :
  convert_ensembl_id ids m = Ok symbols →
  (length symbols ≤ length ids)%nat
  ∧ Forall (λ symbol, ∃ gene, gene ∈ ids
                              ∧ m !! version_stripped gene = Some symbol)
      symbols.
Proof.
  rewrite convert_ensembl_id_omap. intros [= <-]. split.
  - apply length_omap_le.
  - apply Forall_forall. intros symbol. by rewrite list_elem_of_omap.
Qed.

Lemma convert_ensembl_id_values_witness :
  (length ["TP53"] ≤ length ["ENSG001.3"; "ENSG002"])%nat
  ∧ Forall (λ symbol, ∃ gene, gene ∈ ["ENSG001.3"; "ENSG002"]
       ∧ ({["ENSG001" := "TP53"]} : gmap string string) !! version_stripped gene
         = Some symbol)
      ["TP53"].
Proof.
  apply (convert_ensembl_id_values _ {["ENSG001" := "TP53"]}).
  vm_compute. reflexivity.
Defined.



Lemma version_stripped_idemp gene :
  version_stripped (version_stripped gene) = version_stripped gene.
Proof.
  unfold version_stripped. induction gene as [|c r IH]; [done|].
  cbn [prefix_before]. destruct (Ascii.eqb c dot) eqn:Hc; [done|].
  cbn [prefix_before]. by rewrite Hc, IH.
Qed.

(** X4. Only the version-stripped forms matter: identifiers that differ in
    their version suffix only are converted alike, and stripping the
    versions beforehand changes nothing. *)
Theorem convert_ensembl_id_version_blind ids ids' m :
  version_stripped <$> ids = version_stripped <$> ids' →
  convert_ensembl_id ids m = convert_ensembl_id ids' m
  ∧ convert_ensembl_id (version_stripped <$> ids) m = convert_ensembl_id ids m.
Proof.
  intros Hsame.
  assert (∀ l : list string, omap (λ gene, m !! version_stripped gene) l
               = omap (λ key, m !! key) (version_stripped <$> l)) as Homap.
  { intros l. induction l as [|x l IH]; [done|].
    cbn [fmap list_fmap omap list_omap]. by rewrite IH. }
  rewrite !convert_ensembl_id_omap. split.
  - by rewrite !Homap, Hsame.
  - rewrite !Homap. do 2 f_equal. rewrite <- list_fmap_compose.
    apply list_fmap_ext. intros _ gene _. apply version_stripped_idemp.
Qed.

Lemma convert_ensembl_id_version_blind_witness :
  convert_ensembl_id ["ENSG001.3"; "ENSG002.1"] {["ENSG001" := "TP53"]}
  = convert_ensembl_id ["ENSG001.12"; "ENSG002"] {["ENSG001" := "TP53"]}.
Proof.
  apply (convert_ensembl_id_version_blind
           ["ENSG001.3"; "ENSG002.1"] ["ENSG001.12"; "ENSG002"]).
  reflexivity.
Defined.

End identifier_mapper_more.

(** ** Input loader *)

Section input_loader.

Local Abbreviation chars := list_ascii_of_string.

Lemma append_nil_l (t : string) : String.append EmptyString t = t.
Proof. done. Qed.

Lemma append_cons c (s t : string) :
  String.append (String c s) t = String c (String.append s t).
Proof. done. Qed.

Lemma chars_append (s t : string) :
  chars (String.append s t) = chars s ++ chars t.
Proof.
  induction s as [|c s IH]; [done|].
  rewrite append_cons. cbn [list_ascii_of_string]. by rewrite IH.
Qed.

(** The characters [isspace] accepts are the twelve whitespace code points
    below 256. *)
Lemma isspace_spec c :
  isspace c = true ↔
  nat_of_ascii c ∈ [9; 10; 11; 12; 13; 28; 29; 30; 31; 32; 133; 160]%nat.
Proof.
  unfold isspace. cbv zeta.
  rewrite !orb_true_iff, !andb_true_iff, !Nat.leb_le, !Nat.eqb_eq.
  rewrite !elem_of_cons, elem_of_nil. lia.
Qed.

Lemma isspace_LF : isspace LF = true.
Proof. done. Qed.

Lemma isspace_CR : isspace CR = true.
Proof. done. Qed.

(** *** Stripping *)

Lemma elem_of_str_lstrip s c : c ∈ chars (str_lstrip s) → c ∈ chars s.
Proof.
  induction s as [|a s IH]; [done|]. cbn [str_lstrip].
  destruct (isspace a); [|done]. intros Hc%IH.
  cbn [list_ascii_of_string]. by right.
Qed.

Lemma elem_of_str_rstrip s c : c ∈ chars (str_rstrip s) → c ∈ chars s.
Proof.
  revert c. induction s as [|a s IH]; intros c; [done|]. cbn [str_rstrip].
  destruct (str_rstrip s) as [|b r] eqn:Hr.
  - destruct (isspace a); cbn [list_ascii_of_string].
    + by intros ?%elem_of_nil.
    + intros ->%list_elem_of_singleton. by left.
  - cbn [list_ascii_of_string] in *. rewrite !elem_of_cons.
    intros [->|Hc]; [by left|]. right. apply IH. by rewrite elem_of_cons.
Qed.

Lemma elem_of_str_strip s c : c ∈ chars (str_strip s) → c ∈ chars s.
Proof. by intros ?%elem_of_str_rstrip%elem_of_str_lstrip. Qed.

Lemma str_lstrip_head s c :
  head (chars (str_lstrip s)) = Some c → isspace c = false.
Proof.
  induction s as [|a s IH]; [done|]. cbn [str_lstrip].
  destruct (isspace a) eqn:Ha; [done|]. by intros [= <-].
Qed.

Lemma str_rstrip_head s c :
  head (chars (str_rstrip s)) = Some c → head (chars s) = Some c.
Proof.
  destruct s as [|a s]; [done|]. cbn [str_rstrip].
  destruct (str_rstrip s); [|done]. by destruct (isspace a).
Qed.

Lemma str_rstrip_last s c :
  last (chars (str_rstrip s)) = Some c → isspace c = false.
Proof.
  induction s as [|a s IH]; [done|]. cbn [str_rstrip].
  destruct (str_rstrip s) as [|b r] eqn:Hr.
  - destruct (isspace a) eqn:Ha; [done|]. by intros [= <-].
  - cbn [list_ascii_of_string] in *. by rewrite last_cons_cons.
Qed.

Lemma str_rstrip_snoc s c :
  isspace c = true →
  str_rstrip (String.append s (String c EmptyString)) = str_rstrip s.
Proof.
  intros Hc. induction s as [|a s IH].
  - rewrite append_nil_l. cbn [str_rstrip]. by rewrite Hc.
  - rewrite append_cons. cbn [str_rstrip]. by rewrite IH.
Qed.

Lemma str_strip_snoc s c :
  isspace c = true →
  str_strip (String.append s (String c EmptyString)) = str_strip s.
Proof.
  intros Hc. unfold str_strip. induction s as [|a s IH].
  - rewrite append_nil_l. cbn [str_lstrip]. by rewrite Hc.
  - rewrite append_cons. cbn [str_lstrip]. destruct (isspace a); [done|].
    by rewrite <- append_cons, str_rstrip_snoc.
Qed.

(** *** Lines *)

Lemma universal_newlines_no_CR s : CR ∉ chars (universal_newlines s).
Proof.
  assert (∀ n s, (String.length s ≤ n)%nat → CR ∉ chars (universal_newlines s))
    as Hn; [|by apply (Hn (String.length s))].
  clear s. intros n. induction n as [|n IH]; intros [|a s] Hlen;
    cbn [String.length] in Hlen; try lia; [apply not_elem_of_nil..|].
  cbn [universal_newlines]. destruct (Ascii.eqb_spec a CR) as [->|Ha].
  - cbn [list_ascii_of_string]. apply not_elem_of_cons. split; [done|].
    destruct s as [|b s]; [apply not_elem_of_nil|].
    cbn [String.length] in Hlen.
    destruct (Ascii.eqb b LF); apply IH; cbn [String.length]; lia.
  - cbn [list_ascii_of_string]. apply not_elem_of_cons. split; [done|].
    apply IH. lia.
Qed.

Lemma universal_newlines_id s : CR ∉ chars s → universal_newlines s = s.
Proof.
  induction s as [|a s IH]; [done|]. cbn [list_ascii_of_string universal_newlines].
  intros [Ha Hs]%not_elem_of_cons.
  destruct (Ascii.eqb_spec a CR) as [->|_]; [done|]. by rewrite IH.
Qed.

(** Every line of [readlines] is free of LF but for a final one. *)
Lemma readlines_shape text :
  Forall (λ line, ∃ body,
            (LF ∉ chars body)
            ∧ (∀ c, c ∈ chars body → c ∈ chars text)
            ∧ (line = body ∨ line = String.append body (String LF EmptyString)))
    (readlines text).
Proof.
  induction text as [|a text IH]; [constructor|]. cbn [readlines].
  assert (∀ line, (∃ body, (LF ∉ chars body)
            ∧ (∀ c, c ∈ chars body → c ∈ chars text)
            ∧ (line = body ∨ line = String.append body (String LF EmptyString)))
          → ∃ body, (LF ∉ chars body)
            ∧ (∀ c, c ∈ chars body → c ∈ chars (String a text))
            ∧ (line = body ∨ line = String.append body (String LF EmptyString)))
    as Hweaken.
  { intros line (body & ? & Hsub & ?). exists body. split_and!; [done| |done].
    intros c Hc. cbn [list_ascii_of_string]. right. by apply Hsub. }
  destruct (Ascii.eqb_spec a LF) as [->|Ha].
  - constructor; [|by eapply Forall_impl].
    exists EmptyString. split_and!; [apply not_elem_of_nil| |by right].
    by intros c ?%elem_of_nil.
  - destruct (readlines text) as [|line lines].
    + constructor; [|constructor]. exists (String a EmptyString).
      cbn [list_ascii_of_string]. split_and!; [|  |by left].
      * intros ?%list_elem_of_singleton. congruence.
      * intros c ->%list_elem_of_singleton. by left.
    + apply Forall_cons in IH as [(body & Hbody & Hsub & Hline) IH].
      constructor; [|by eapply Forall_impl].
      exists (String a body). cbn [list_ascii_of_string]. split_and!.
      * apply not_elem_of_cons. by split.
      * intros c [->|Hc]%elem_of_cons; [by left|]. right. by apply Hsub.
      * destruct Hline as [->| ->]; [by left|by right].
Qed.

Lemma readlines_line (line rest : string) :
  LF ∉ chars line →
  readlines (String.append line (String LF rest))
  = String.append line (String LF EmptyString) :: readlines rest.
Proof.
  induction line as [|a line IH]; intros Hline.
  - rewrite !append_nil_l. cbn [readlines]. by rewrite Ascii.eqb_refl.
  - cbn [list_ascii_of_string] in Hline.
    apply not_elem_of_cons in Hline as [Ha Hline].
    rewrite !append_cons. cbn [readlines].
    destruct (Ascii.eqb_spec a LF) as [->|_]; [done|]. by rewrite IH.
Qed.

Lemma readlines_unlines lines :
  Forall (λ line, LF ∉ chars line) lines →
  readlines (unlines lines)
  = (λ line, String.append line (String LF EmptyString)) <$> lines.
Proof.
  induction 1 as [|line lines Hline _ IH]; [done|].
  cbn [unlines foldr fmap list_fmap]. fold (unlines lines).
  by rewrite readlines_line, IH.
Qed.

Lemma chars_unlines lines c :
  c ∈ chars (unlines lines) → c = LF ∨ ∃ line, line ∈ lines ∧ c ∈ chars line.
Proof.
  induction lines as [|line lines IH]; [by intros ?%elem_of_nil|].
  cbn [unlines foldr]. fold (unlines lines).
  rewrite chars_append. cbn [list_ascii_of_string].
  rewrite elem_of_app, elem_of_cons. intros [Hc|[->|Hc]].
  - right. exists line. split; [by left|done].
  - by left.
  - destruct (IH Hc) as [->|(l & Hl & Hcl)]; [by left|].
    right. exists l. split; [by right|done].
Qed.

(** X5. For text of code points below 256: no returned line begins or ends
    with a character Python counts as whitespace (9-13, 28-32, U+0085 and
    U+00A0), and none contains a line feed or a carriage return.  A no-break
    space before an identifier and a next-line character after it are
    removed. *)
Theorem read_txt_file_stripped :
  (∀ contents,
     Forall (λ line,
         (∀ c, head (chars line) = Some c → isspace c = false)
         ∧ (∀ c, last (chars line) = Some c → isspace c = false)
         ∧ (LF ∉ chars line) ∧ (CR ∉ chars line))
       (read_txt_file contents))
  ∧ (∀ c, isspace c = true ↔
          nat_of_ascii c ∈ [9; 10; 11; 12; 13; 28; 29; 30; 31; 32; 133; 160]%nat)
  ∧ read_txt_file
      (String NBSP ("ENSG001.3" +:+ String NEL (String CR (String LF " ENSG002"))))
    = ["ENSG001.3"; "ENSG002"].
Proof.
  split_and!; [|apply isspace_spec|by vm_compute].
  intros contents.
  unfold read_txt_file. apply Forall_fmap.
  eapply Forall_impl; [apply readlines_shape|].
  intros line (body & Hbody & Hsub & Hline). cbn [compose].
  assert (str_strip line = str_strip body) as ->.
  { destruct Hline as [->| ->]; [done|]. by apply str_strip_snoc. }
  split_and!.
  - intros c Hc. by apply str_rstrip_head, str_lstrip_head in Hc.
  - intros c Hc. by apply str_rstrip_last in Hc.
  - by intros ?%elem_of_str_strip.
  - intros ?%elem_of_str_strip%Hsub.
    by apply (universal_newlines_no_CR contents).
Qed.

(** X6. For text of code points below 256: reading back a file written one
    identifier per line returns the identifiers, blank ones included, when
    each is left unchanged by [strip()] (no surrounding whitespace, U+0085 and
    U+00A0 included) and holds no line break. *)
Theorem read_txt_file_unlines lines :
  Forall (λ line, str_strip line = line ∧ (LF ∉ chars line) ∧ (CR ∉ chars line))
    lines →
  read_txt_file (unlines lines) = lines.
Proof.
  intros Hlines. unfold read_txt_file.
  rewrite universal_newlines_id.
  - rewrite readlines_unlines
      by (eapply Forall_impl; [exact Hlines|]; by intros ? (_ & ? & _)).
    rewrite <- list_fmap_compose.
    rewrite <- (list_fmap_id lines) at 2. apply Forall_fmap_ext.
    eapply Forall_impl; [exact Hlines|]. intros line (Hstrip & _ & _).
    cbn [compose]. by rewrite str_strip_snoc.
  - intros [?|(line & Hline & Hc)]%chars_unlines; [done|].
    by apply (proj1 (Forall_forall _ _) Hlines) in Hline as (_ & _ & ?).
Qed.

Lemma read_txt_file_unlines_witness :
  read_txt_file (unlines ["ENSG001.3"; ""; "ENSG002"])
  = ["ENSG001.3"; ""; "ENSG002"].
Proof.
  apply (read_txt_file_unlines ["ENSG001.3"; ""; "ENSG002"]).
  apply (bool_decide_unpack _). by vm_compute.
Defined.

End input_loader.

(** ** Scatter plotter: the files written *)

Section savefig.

Lemma prefix_append (old s : string) :
  String.prefix old s = true ↔ ∃ after, s = String.append old after.
Proof.
  revert s. induction old as [|a old IH]; intros s.
  - destruct s; (split; [intros _; by eexists|done]).
  - destruct s as [|b s]; cbn [String.prefix].
    + split; [done|]. by intros [after ?].
    + destruct (ascii_dec a b) as [->|Hab].
      * rewrite IH. split; intros [after Hafter]; exists after.
        -- by rewrite Hafter.
        -- by injection Hafter.
      * split; [done|]. intros [after Hafter]. by injection Hafter.
Qed.

Lemma occurs_cons old c s : occurs old s → occurs old (String c s).
Proof.
  intros (before & after & ->). by exists (String c before), after.
Qed.

Lemma occursb_spec old s : occurs old s ↔ occursb old s = true.
Proof.
  split.
  - intros (before & after & ->). induction before as [|c before IH].
    + assert (String.prefix old (String.append old after) = true) as Hprefix
        by (apply prefix_append; by eexists).
      rewrite append_nil_l.
      destruct (String.append old after); cbn [occursb]; by rewrite Hprefix.
    + rewrite append_cons. cbn [occursb]. rewrite IH. apply orb_true_r.
  - induction s as [|c s IH]; cbn [occursb]; rewrite orb_true_iff.
    + intros [[after ->]%prefix_append|?]; [|done]. by exists EmptyString, after.
    + intros [[after ->]%prefix_append|Hs].
      * by exists EmptyString, after.
      * by apply occurs_cons, IH.
Qed.

Lemma str_replace_absent old new s :
  ¬ occurs old s → str_replace old new s = s.
Proof.
  unfold str_replace. induction s as [|c s IH]; intros Hnot; [done|].
  cbn [str_replace_from].
  destruct (String.prefix old (String c s)) eqn:Hprefix.
  - destruct Hnot. apply prefix_append in Hprefix as [after ->].
    by exists EmptyString, after.
  - rewrite IH; [done|]. intros Hs. by apply Hnot, occurs_cons.
Qed.

Lemma str_replace_pdf_suffix base :
  ¬ occurs ".pdf" base →
  str_replace ".pdf" ".png" (String.append base ".pdf")
  = String.append base ".png".
Proof.
  unfold str_replace. induction base as [|c base IH]; intros Hnot; [done|].
  change (String.append (String c base) ".pdf")
    with (String c (String.append base ".pdf")).
  cbn [str_replace_from].
  destruct (String.prefix ".pdf" (String c (String.append base ".pdf")))
    eqn:Hprefix.
  - destruct Hnot. apply prefix_append in Hprefix as [after Hafter].
    destruct base as [|a1 [|a2 [|a3 base]]]; try discriminate Hafter.
    injection Hafter as -> -> -> -> _.
    by exists EmptyString, base.
  - change (String.append (String c base) ".png")
      with (String c (String.append base ".png")).
    rewrite IH; [done|]. intros Hs. by apply Hnot, occurs_cons.
Qed.

(** X7. When [outpath] holds no ".pdf" the second [savefig] goes to the very
    path of the first: one file is written twice and no PNG appears beside
    it. *)
Theorem savefig_paths_without_pdf outpath :
  outpath ≠ EmptyString → ¬ occurs ".pdf" outpath →
  savefig_paths (Some outpath) = [outpath; outpath].
Proof.
  intros Hne Hnot. destruct outpath as [|c s]; [done|].
  cbn [savefig_paths]. by rewrite str_replace_absent.
Qed.

Lemma savefig_paths_without_pdf_witness :
  savefig_paths (Some "figures/enrichment.svg")
  = ["figures/enrichment.svg"; "figures/enrichment.svg"].
Proof.
  apply (savefig_paths_without_pdf "figures/enrichment.svg"); [done|].
  intros Hoccurs%occursb_spec. by vm_compute in Hoccurs.
Defined.

(** X8. For a path that ends in ".pdf" and holds no other ".pdf" the two files
    are the PDF and the PNG with the same base name. *)
Theorem savefig_paths_pdf base :
  ¬ occurs ".pdf" base →
  savefig_paths (Some (String.append base ".pdf"))
  = [String.append base ".pdf"; String.append base ".png"].
Proof.
  intros Hnot. rewrite <- str_replace_pdf_suffix by done.
  by destruct base.
Qed.

Lemma savefig_paths_pdf_witness :
  savefig_paths (Some "figures/enrichment.v2.pdf")
  = ["figures/enrichment.v2.pdf"; "figures/enrichment.v2.png"].
Proof.
  apply (savefig_paths_pdf "figures/enrichment.v2").
  intros Hoccurs%occursb_spec. by vm_compute in Hoccurs.
Defined.

End savefig.

(** ** ORA engine: further properties *)

Section ora_more.

Implicit Types (gene_sets : list (string * list string)).
Implicit Types (table : list ora_row).

(** *** Bounds of the adjustment *)

Lemma ecdf_div_le p (i m : nat) :
  (0 <= p)%Q → (1 ≤ i ≤ m)%nat →
  (p / (inject_Z (Z.of_nat i) / inject_Z (Z.of_nat m))
   <= p * inject_Z (Z.of_nat m))%Q.
Proof.
  intros Hp [Hi Him].
  assert (0 < inject_Z (Z.of_nat m))%Q as Hm by (rewrite <- (Zlt_Qlt 0); lia).
  assert (1 <= inject_Z (Z.of_nat i))%Q as Hi1 by (rewrite <- (Zle_Qle 1); lia).
  assert (0 < inject_Z (Z.of_nat i) / inject_Z (Z.of_nat m))%Q as He.
  { apply Qlt_shift_div_l; [done|]. rewrite Qmult_0_l.
    by apply Qlt_le_trans with 1%Q. }
  apply Qle_shift_div_r; [done|].
  assert (p * inject_Z (Z.of_nat m)
          * (inject_Z (Z.of_nat i) / inject_Z (Z.of_nat m))
          == p * inject_Z (Z.of_nat i))%Q as ->.
  { field. intros H. rewrite H in Hm. by apply (Qlt_irrefl 0). }
  rewrite <- (Qmult_1_r p) at 1. rewrite !(Qmult_comm p).
  by apply Qmult_le_compat_r.
Qed.

Lemma corrected_raw_le l (first m : nat) :
  (1 ≤ first)%nat → (first + length l ≤ S m)%nat → Forall (Qle 0) l →
  Forall2 (λ p x, x <= p * inject_Z (Z.of_nat m))%Q l
    (zip_with Qdiv l
       ((λ i, inject_Z (Z.of_nat i) / inject_Z (Z.of_nat m))%Q
          <$> seq first (length l))).
Proof.
  revert first. induction l as [|p l IH]; intros first H1 Hm Hl; [constructor|].
  apply Forall_cons in Hl as [Hp Hl]. simpl in *. constructor.
  - apply ecdf_div_le; [done|lia].
  - apply IH; [lia|lia|done].
Qed.

Lemma cummin_right_le_bound (bound : Q → Q) (l raw : list Q) :
  Forall2 (λ p x, x <= bound p)%Q l raw →
  Forall2 (λ p c, c <= bound p)%Q l (cummin_right raw).
Proof.
  induction 1 as [|p x l raw Hx _ IH]; [constructor|].
  cbn [cummin_right]. constructor; [|done].
  destruct (cummin_right raw) as [|y t]; [done|].
  apply Qle_trans with x; [apply Q.le_min_r|done].
Qed.

Lemma clip_to_one_le_self q : (clip_to_one q <= q)%Q.
Proof.
  unfold clip_to_one. destruct (Qle_bool q 1) eqn:Hq; [apply Qle_refl|].
  apply Qlt_le_weak, Qnot_le_lt. intros Hle%Qle_bool_iff. congruence.
Qed.

(** An adjusted value is at most the number of tests times the raw value. *)
Lemma fdrcorrection_sorted_le l :
  Forall (Qle 0) l →
  Forall2 (λ p f, f <= p * inject_Z (Z.of_nat (length l)))%Q
    l (fdrcorrection_sorted l).
Proof.
  intros Hl. unfold fdrcorrection_sorted. rewrite reverse_minimum_accumulate.
  apply Forall2_fmap_r.
  eapply Forall2_impl;
    [apply (cummin_right_le_bound (λ p, p * inject_Z (Z.of_nat (length l)))%Q),
       corrected_raw_le; [lia|lia|done]|].
  intros p c Hc. cbn. by apply Qle_trans with c; [apply clip_to_one_le_self|].
Qed.

Lemma length_np_take pvals ind : length (np_take pvals ind) = length ind.
Proof. unfold np_take. by rewrite length_fmap. Qed.

(** Where the adjusted value of position [i] comes from. *)
Lemma multipletests_fdr_bh_position (pvals : list Q) i p :
  pvals !! i = Some p →
  ∃ r f, argsort pvals !! r = Some i
    ∧ np_take pvals (argsort pvals) !! r = Some p
    ∧ fdrcorrection_sorted (np_take pvals (argsort pvals)) !! r = Some f
    ∧ multipletests_fdr_bh pvals !! i = Some f.
Proof.
  intros Hi.
  assert (i ∈ argsort pvals) as [r Hr]%list_elem_of_lookup_1.
  { rewrite argsort_Permutation, elem_of_seq.
    apply lookup_lt_Some in Hi. lia. }
  assert (np_take pvals (argsort pvals) !! r = Some p) as Hp.
  { unfold np_take. rewrite list_lookup_fmap, Hr. simpl.
    by rewrite nth_lookup, Hi. }
  destruct (lookup_lt_is_Some_2
    (fdrcorrection_sorted (np_take pvals (argsort pvals))) r) as [f Hf].
  { rewrite length_fdrcorrection_sorted. by eapply lookup_lt_Some. }
  exists r, f. split_and!; [done..|].
  unfold multipletests_fdr_bh.
  apply (scatter_lookup _ _ _ r); [apply NoDup_argsort|done..|].
  rewrite length_replicate. by apply lookup_lt_Some in Hi.
Qed.

Lemma multipletests_fdr_bh_le (pvals : list Q) i p f :
  Forall (Qle 0) pvals → pvals !! i = Some p →
  multipletests_fdr_bh pvals !! i = Some f →
  (f <= p * inject_Z (Z.of_nat (length pvals)))%Q.
Proof.
  intros Hpvals Hi Hf.
  destruct (multipletests_fdr_bh_position pvals i p Hi)
    as (r & f' & Hr & Hp & Hf' & Hbh).
  assert (f' = f) as -> by congruence.
  assert (Forall (Qle 0) (np_take pvals (argsort pvals))) as Hnonneg.
  { unfold np_take. apply Forall_fmap, Forall_forall. intros j Hj. simpl.
    rewrite argsort_Permutation, elem_of_seq in Hj.
    destruct (lookup_lt_is_Some_2 pvals j) as [q Hq]; [lia|].
    rewrite nth_lookup, Hq. simpl.
    by apply (Forall_lookup_1 _ _ _ _ Hpvals Hq). }
  apply fdrcorrection_sorted_le in Hnonneg.
  rewrite length_np_take, length_argsort in Hnonneg.
  destruct (Forall2_lookup_l _ _ _ _ _ Hnonneg Hp) as (f' & Hf'' & Hle).
  congruence.
Qed.

Lemma ora_table_lookup study_genes gene_sets background_genes i r :
  ora_results study_genes gene_sets background_genes !! i = Some r →
  ∃ f, ora_table study_genes gene_sets background_genes !! i = Some (r, f)
       ∧ (rec_p_value r <= f)%Q
       ∧ (f <= rec_p_value r * inject_Z (Z.of_nat (length gene_sets)))%Q.
Proof.
  intros Hr. unfold ora_table.
  assert ((rec_p_value <$> ora_results study_genes gene_sets background_genes)
            !! i = Some (rec_p_value r)) as Hp
    by (by rewrite list_lookup_fmap, Hr).
  pose proof (p_value_unit_interval study_genes gene_sets background_genes)
    as Hunit.
  destruct (multipletests_fdr_bh_ge _ i _ (proj2 (Forall_fmap _ _ _) Hunit) Hp)
    as (f & Hf & Hge & _).
  exists f. split_and!; [|done|].
  - rewrite lookup_zip_with, Hr. simpl. by rewrite Hf.
  - rewrite <- (length_ora_results study_genes gene_sets background_genes).
    rewrite <- (length_fmap rec_p_value).
    apply (multipletests_fdr_bh_le _ i); [|done..].
    apply Forall_fmap. eapply Forall_impl; [exact Hunit|]. by intros ? [? _].
Qed.

(** *** Which inputs matter *)

Lemma ora_term_ext (S S' B : gset string) n N (item item' : string * list string) :
  S ∩ B = S' ∩ B → item.1 = item'.1 →
  py_set item.2 ∩ B = py_set item'.2 ∩ B →
  ora_term S B n N item = ora_term S' B n N item'.
Proof.
  destruct item as [t genes], item' as [t' genes']. cbn [fst snd].
  intros HS -> Hgenes. unfold ora_term. rewrite Hgenes.
  assert (S ∩ (py_set genes' ∩ B) = S' ∩ (py_set genes' ∩ B)) as ->; [|done].
  rewrite !(comm_L (∩) (py_set genes')), !(assoc_L (∩)). by rewrite HS.
Qed.

Lemma same_outcome_refl (r : result (list ora_row)) : same_outcome r r.
Proof.
  destruct r as [table|e]; [|done]. cbn.
  apply Forall_Forall2_diag, Forall_forall. intros row _.
  by repeat split.
Qed.

(** In the embedding, where a set is enumerated in one fixed order, inputs
    that agree as sets inside the background give the same outcome. *)
Lemma perform_ora_ext
    (study study' background background' : list string) gene_sets gene_sets' :
  (∀ g, g ∈ background ↔ g ∈ background') →
  (∀ g, g ∈ background → (g ∈ study ↔ g ∈ study')) →
  Forall2 (λ item item', item.1 = item'.1
             ∧ ∀ g, g ∈ background → (g ∈ item.2 ↔ g ∈ item'.2))
    gene_sets gene_sets' →
  perform_ora study gene_sets background
  = perform_ora study' gene_sets' background'.
Proof.
  intros Hbg Hstudy Hsets.
  assert (py_set background' = py_set background) as HB.
  { unfold py_set. apply set_eq. intros g. rewrite !elem_of_list_to_set.
    by rewrite Hbg. }
  assert (py_set study ∩ py_set background = py_set study' ∩ py_set background)
    as HS.
  { unfold py_set. apply set_eq. intros g.
    rewrite !elem_of_intersection, !elem_of_list_to_set. naive_solver. }
  assert (ora_results study gene_sets background
          = ora_results study' gene_sets' background') as Hresults.
  { unfold ora_results. rewrite HB, HS.
    induction Hsets as [|item item' l l' [Hterm Hgenes] _ IH]; [done|].
    cbn [fmap list_fmap]. f_equal; [|exact IH].
    apply ora_term_ext; [done..|].
    unfold py_set. apply set_eq. intros g.
    rewrite !elem_of_intersection, !elem_of_list_to_set. naive_solver. }
  unfold perform_ora. by rewrite Hresults.
Qed.

(** X9. The call looks at its collections as sets and only inside the
    background: the order and the repetitions of the genes, the study genes
    outside the background and the term genes outside the background do not
    change the outcome.  Both calls raise the same error, or return tables
    with the same rows in the same order: same term, counts, p-value and FDR,
    and the same contributing genes, listed in some order. *)
Theorem perform_ora_set_semantics
    (study study' background background' : list string) gene_sets gene_sets' :
  (∀ g, g ∈ background ↔ g ∈ background') →
  (∀ g, g ∈ background → (g ∈ study ↔ g ∈ study')) →
  Forall2 (λ item item', item.1 = item'.1
             ∧ ∀ g, g ∈ background → (g ∈ item.2 ↔ g ∈ item'.2))
    gene_sets gene_sets' →
  same_outcome (perform_ora study gene_sets background)
               (perform_ora study' gene_sets' background').
Proof.
  intros Hbg Hstudy Hsets.
  rewrite (perform_ora_ext study study' background background'
             gene_sets gene_sets' Hbg Hstudy Hsets).
  apply same_outcome_refl.
Qed.

Lemma perform_ora_set_semantics_witness :
  ∃ table table',
    perform_ora small_study small_gene_sets small_background = Ok table
    ∧ perform_ora ["d"; "a"; "a"; "zz"; "c"; "b"]
        [("T", ["d"; "c"; "b"; "a"; "a"; "outside"]); ("U", ["e"; "e"])]
        ["h"; "g"; "f"; "e"; "d"; "c"; "b"; "a"; "a"] = Ok table'
    ∧ table ≠ []
    ∧ Forall2 same_row table table'.
Proof.
  eexists. eexists.
  split; [vm_compute; reflexivity|]. split; [vm_compute; reflexivity|].
  split; [done|].
  assert (same_outcome
            (perform_ora small_study small_gene_sets small_background)
            (perform_ora ["d"; "a"; "a"; "zz"; "c"; "b"]
               [("T", ["d"; "c"; "b"; "a"; "a"; "outside"]); ("U", ["e"; "e"])]
               ["h"; "g"; "f"; "e"; "d"; "c"; "b"; "a"; "a"])) as Hsame.
  { apply (perform_ora_set_semantics small_study _ small_background).
    - intros g. unfold small_background. set_solver.
    - intros g. unfold small_background, small_study. set_solver.
    - unfold small_gene_sets, small_background.
      constructor; [split; [done|intros g; cbn [snd]; set_solver]|].
      constructor; [split; [done|intros g; cbn [snd]; set_solver]|].
      constructor. }
  exact Hsame.
Defined.

(** *** Edge cases *)

(** X10. An empty study, with at least one term, gives the empty table. *)
Theorem perform_ora_no_study gene_sets (background : list string) :
  gene_sets ≠ [] → perform_ora [] gene_sets background = Ok [].
Proof. apply perform_ora_empty_study. Qed.

Lemma perform_ora_no_study_witness :
  perform_ora [] small_gene_sets small_background = Ok [].
Proof. by apply (perform_ora_no_study small_gene_sets small_background). Defined.

(** X11. An empty background, with at least one term, gives the empty table. *)
Theorem perform_ora_no_background (study : list string) gene_sets :
  gene_sets ≠ [] → perform_ora study gene_sets [] = Ok [].
Proof. apply perform_ora_empty_background. Qed.

Lemma perform_ora_no_background_witness :
  perform_ora small_study small_gene_sets [] = Ok [].
Proof. by apply (perform_ora_no_background small_study small_gene_sets). Defined.

(** *** What is and what is not returned *)

Lemma Qlt_alpha_1 : ¬ (1 <= 1 # 20)%Q.
Proof. by intros H. Qed.

(** X12. Every returned row has at least one study gene in the term, lists it,
    and has a raw p-value of at most 0.05: a term without a study hit is
    never returned. *)
Theorem perform_ora_rows_have_hits
    (study : list string) gene_sets (background : list string) table :
  perform_ora study gene_sets background = Ok table →
  Forall (λ row, (1 ≤ study_count row ≤ background_count row)%nat
                 ∧ study_genes row ≠ []
                 ∧ (p_value row <= 1 # 20)%Q)
    table.
Proof.
  intros Hok. apply Forall_forall. intros row Hrow.
  apply (elem_of_perform_ora _ _ _ _ _ Hok) in Hrow as [([r f] & Hrf & ->) Hf].
  apply ora_table_FDR_ge in Hrf as [Hr [Hle _]].
  cbn [select_columns FDR study_count background_count study_genes p_value
         fst snd] in *.
  assert (rec_p_value r <= 1 # 20)%Q as Hp by (by apply Qle_trans with f).
  apply elem_of_ora_results in Hr as ([t genes] & _ & ->).
  cbn [ora_term rec_k rec_K rec_p_value rec_study_genes] in *.
  set (hits := py_set study ∩ (py_set genes ∩ py_set background)) in *.
  assert (size hits ≠ 0)%nat as Hhits.
  { intros Hzero. rewrite Hzero in Hp. destruct Qlt_alpha_1.
    case_match; [done|]. rewrite hypergeom_sf_upper_tail in Hp.
    rewrite upper_tail_0 in Hp; [done|apply subseteq_size; set_solver..]. }
  split_and!; [lia|apply subseteq_size; set_solver| |done].
  intros Hnil. apply Hhits. unfold size, set_size. simpl. by rewrite Hnil.
Qed.

Lemma perform_ora_rows_have_hits_witness :
  ∃ table, perform_ora small_study small_gene_sets small_background = Ok table
    ∧ table ≠ []
    ∧ Forall (λ row, (1 ≤ study_count row ≤ background_count row)%nat
                     ∧ study_genes row ≠ []
                     ∧ (p_value row <= 1 # 20)%Q)
        table.
Proof.
  eexists. split; [vm_compute; reflexivity|]. split; [done|].
  apply (perform_ora_rows_have_hits small_study small_gene_sets small_background).
  vm_compute. reflexivity.
Defined.

(** X14. With a single term there is nothing to correct: the FDR of the row
    equals its raw p-value. *)
Theorem perform_ora_single_term
    (study : list string) item (background : list string) table :
  perform_ora study [item] background = Ok table →
  Forall (λ row, FDR row == p_value row)%Q table.
Proof.
  intros Hok. apply Forall_forall. intros row Hrow.
  apply (elem_of_perform_ora _ _ _ _ _ Hok) in Hrow as [([r f] & Hrf & ->) _].
  apply list_elem_of_lookup_1 in Hrf as [i Hrf].
  assert (ora_results study [item] background !! i = Some r) as Hr.
  { rewrite <- fst_ora_table, list_lookup_fmap, Hrf. done. }
  destruct (ora_table_lookup _ _ _ _ _ Hr) as (f' & Hrf' & Hge & Hle).
  assert (f' = f) as -> by congruence.
  cbn [select_columns FDR p_value fst snd length] in *.
  apply Qle_antisym; [|done]. by rewrite Qmult_1_r in Hle.
Qed.

Lemma perform_ora_single_term_witness :
  ∃ table, perform_ora small_study single_gene_set small_background = Ok table
    ∧ table ≠ [] ∧ Forall (λ row, FDR row == p_value row)%Q table.
Proof.
  eexists. split; [vm_compute; reflexivity|]. split; [done|].
  apply (perform_ora_single_term small_study ("T", ["a"; "b"; "c"; "d"])
           small_background).
  vm_compute. reflexivity.
Defined.

(** *** More hits, smaller p-value *)

Lemma upper_tail_antitone (N K n k1 k2 : nat) :
  (k1 ≤ k2)%nat → (upper_tail N K n k2 <= upper_tail N K n k1)%Q.
Proof.
  intros Hk. rewrite !upper_tail_numerator. unfold Qle. cbn [Qnum Qden].
  apply Z.mul_le_mono_nonneg_r; [lia|]. apply inj_le.
  destruct (decide (k2 ≤ S n)%nat) as [Hk2|Hk2].
  - replace (S n - k1)%nat with ((k2 - k1) + (S n - k2))%nat by lia.
    rewrite seq_app, sum_list_with_app.
    replace (k1 + (k2 - k1))%nat with k2 by lia. lia.
  - replace (S n - k2)%nat with 0%nat by lia. simpl. lia.
Qed.

(** X15. Of two terms with the same number of genes in the background, the one
    with more study hits never has the larger p-value. *)
Theorem p_value_antitone_in_hits
    (study : list string) gene_sets (background : list string) r1 r2 :
  r1 ∈ ora_results study gene_sets background →
  r2 ∈ ora_results study gene_sets background →
  rec_K r1 = rec_K r2 → (rec_k r1 ≤ rec_k r2)%nat →
  (rec_p_value r2 <= rec_p_value r1)%Q.
Proof.
  intros ([t1 genes1] & _ & ->)%elem_of_ora_results
         ([t2 genes2] & _ & ->)%elem_of_ora_results.
  cbn [ora_term rec_K rec_k rec_p_value]. intros HK Hk. rewrite <- HK.
  case_match; [apply Qle_refl|].
  rewrite !hypergeom_sf_upper_tail. by apply upper_tail_antitone.
Qed.

Lemma p_value_antitone_in_hits_witness :
  ∃ r1 r2,
    r1 ∈ ora_results example_study example_gene_sets example_background
    ∧ r2 ∈ ora_results example_study example_gene_sets example_background
    ∧ (rec_term r1, rec_term r2) = ("B", "A")
    ∧ (rec_p_value r2 <= rec_p_value r1)%Q.
Proof.
  eexists _, _.
  assert (∀ (x y : ora_record) l, y ∈ x :: y :: l) as Hsecond
    by (intros; apply list_elem_of_further, list_elem_of_here).
  split_and!;
    [unfold ora_results, example_gene_sets; cbn [fmap list_fmap];
     apply Hsecond
    |unfold ora_results, example_gene_sets; cbn [fmap list_fmap];
     apply list_elem_of_here
    |done|].
  apply (p_value_antitone_in_hits
           example_study example_gene_sets example_background).
  - apply Hsecond.
  - apply list_elem_of_here.
  - by vm_compute.
  - vm_compute. lia.
Defined.

(** *** The adjustment respects the order of the p-values *)

Lemma StronglySorted_lookup_le {A} (R : relation A) `{!Reflexive R}
    (l : list A) i j x y :
  StronglySorted R l → (i ≤ j)%nat →
  l !! i = Some x → l !! j = Some y → R x y.
Proof.
  intros Hsorted. revert i j.
  induction Hsorted as [|a l _ IH Ha]; intros i j Hij Hi Hj; [done|].
  destruct i as [|i], j as [|j]; simpl in *; try lia.
  - by simplify_eq.
  - simplify_eq. apply (proj1 (Forall_forall _ _) Ha).
    by eapply list_elem_of_lookup_2.
  - apply (IH i j); [lia|done..].
Qed.

Local Instance Qle_reflexive : Reflexive Qle.
Proof. exact Qle_refl. Qed.

Local Instance Qle_transitive : Transitive Qle.
Proof. exact Qle_trans. Qed.

Lemma clip_to_one_mono q1 q2 :
  (q1 <= q2)%Q → (clip_to_one q1 <= clip_to_one q2)%Q.
Proof.
  intros Hq. unfold clip_to_one.
  destruct (Qle_bool q1 1) eqn:H1, (Qle_bool q2 1) eqn:H2; try done.
  - by apply Qle_bool_iff.
  - apply Qle_bool_iff in H2.
    assert (Qle_bool q1 1 = true) by (apply Qle_bool_iff; by apply Qle_trans with q2).
    congruence.
Qed.

Lemma Sorted_cummin_right l : Sorted Qle (cummin_right l).
Proof.
  induction l as [|x l IH]; [constructor|]. cbn [cummin_right].
  constructor; [done|].
  destruct (cummin_right l) as [|y t]; constructor. apply Q.le_min_l.
Qed.

(** The adjusted values of ascending p-values ascend. *)
Lemma fdrcorrection_sorted_sorted l :
  StronglySorted Qle (fdrcorrection_sorted l).
Proof.
  unfold fdrcorrection_sorted. rewrite reverse_minimum_accumulate.
  apply (StronglySorted_fmap _ Qle Qle); [apply clip_to_one_mono|].
  apply Sorted_StronglySorted; [|apply Sorted_cummin_right].
  intros ???. apply Qle_trans.
Qed.

(** The running minimum from the right is attained at or after its
    position, and is a lower bound of everything there. *)
Lemma cummin_right_attained l r v :
  cummin_right l !! r = Some v → ∃ u, (r ≤ u)%nat ∧ l !! u = Some v.
Proof.
  revert r v. induction l as [|x l IH]; intros r v; [done|].
  cbn [cummin_right]. destruct r as [|r]; simpl.
  - destruct (cummin_right l) as [|y t] eqn:Ht.
    + intros [= <-]. by exists 0%nat.
    + intros [= <-]. unfold Qmin, GenericMinMax.gmin.
      destruct (y ?= x)%Q.
      * destruct (IH 0%nat y) as (u & _ & Hu); [done|].
        by exists (S u); split; [lia|].
      * destruct (IH 0%nat y) as (u & _ & Hu); [done|].
        by exists (S u); split; [lia|].
      * by exists 0%nat.
  - intros (u & Hu & Hv)%IH. exists (S u). split; [lia|done].
Qed.

Lemma cummin_right_lower l r u v x :
  cummin_right l !! r = Some v → (r ≤ u)%nat → l !! u = Some x → (v <= x)%Q.
Proof.
  intros Hv Hru Hx.
  destruct (lookup_lt_is_Some_2 (cummin_right l) u) as [w Hw].
  { rewrite length_cummin_right. by eapply lookup_lt_Some. }
  apply Qle_trans with w.
  - apply (StronglySorted_lookup_le Qle (cummin_right l) r u); [|done..].
    apply Sorted_StronglySorted; [|apply Sorted_cummin_right].
    intros ???. apply Qle_trans.
  - assert (Forall2 (λ p c, c <= p)%Q l (cummin_right l)) as Hle.
    { apply (cummin_right_le_bound (λ q, q)).
      apply Forall_Forall2_diag, Forall_true. intros q. apply Qle_refl. }
    destruct (Forall2_lookup_l _ _ _ _ _ Hle Hx) as (w' & Hw' & Hle').
    congruence.
Qed.

Lemma lookup_corrected_raw l (u : nat) p :
  l !! u = Some p →
  zip_with Qdiv l (ecdf (length l)) !! u
  = Some (p / (inject_Z (Z.of_nat (S u)) / inject_Z (Z.of_nat (length l))))%Q.
Proof.
  intros Hp. rewrite lookup_zip_with, Hp. simpl. unfold ecdf.
  rewrite list_lookup_fmap, lookup_seq_lt by (by eapply lookup_lt_Some).
  done.
Qed.

Lemma ecdf_div_antitone p q (i j m : nat) :
  (0 <= q)%Q → (q <= p)%Q → (1 ≤ i)%nat → (i ≤ j)%nat → (j ≤ m)%nat →
  (q / (inject_Z (Z.of_nat j) / inject_Z (Z.of_nat m))
   <= p / (inject_Z (Z.of_nat i) / inject_Z (Z.of_nat m)))%Q.
Proof.
  intros Hp Hqp Hi Hij Hjm.
  assert (0 < inject_Z (Z.of_nat m))%Q as Hm by (rewrite <- (Zlt_Qlt 0); lia).
  assert (0 < inject_Z (Z.of_nat i))%Q as Hi0 by (rewrite <- (Zlt_Qlt 0); lia).
  assert (0 < inject_Z (Z.of_nat j))%Q as Hj0 by (rewrite <- (Zlt_Qlt 0); lia).
  assert (inject_Z (Z.of_nat i) <= inject_Z (Z.of_nat j))%Q as Hij'
    by (rewrite <- Zle_Qle; lia).
  assert (0 < inject_Z (Z.of_nat i) / inject_Z (Z.of_nat m))%Q as Hei.
  { apply Qlt_shift_div_l; [done|]. by rewrite Qmult_0_l. }
  assert (0 < inject_Z (Z.of_nat j) / inject_Z (Z.of_nat m))%Q as Hej.
  { apply Qlt_shift_div_l; [done|]. by rewrite Qmult_0_l. }
  assert (¬ inject_Z (Z.of_nat m) == 0)%Q as Hm'
    by (intros H; rewrite H in Hm; by apply (Qlt_irrefl 0)).
  assert (¬ inject_Z (Z.of_nat j) == 0)%Q as Hj'
    by (intros H; rewrite H in Hj0; by apply (Qlt_irrefl 0)).
  apply Qle_shift_div_l; [done|].
  assert (q / (inject_Z (Z.of_nat j) / inject_Z (Z.of_nat m))
          * (inject_Z (Z.of_nat i) / inject_Z (Z.of_nat m))
          == q * (inject_Z (Z.of_nat i) / inject_Z (Z.of_nat j)))%Q as ->
    by (field; auto).
  apply Qle_trans with q; [|done].
  rewrite <- (Qmult_1_r q) at 2. rewrite !(Qmult_comm q).
  apply Qmult_le_compat_r; [|done].
  apply Qle_shift_div_r; [done|]. by rewrite Qmult_1_l.
Qed.

(** Among ascending non-negative p-values, a later position whose p-value
    is not larger than an earlier one has no larger adjusted value. *)
Lemma fdrcorrection_sorted_ties l (r t : nat) a b fr ft :
  StronglySorted Qle l → Forall (Qle 0) l → (r ≤ t)%nat →
  l !! r = Some a → l !! t = Some b → (b <= a)%Q →
  fdrcorrection_sorted l !! r = Some fr →
  fdrcorrection_sorted l !! t = Some ft →
  (ft <= fr)%Q.
Proof.
  intros Hsorted Hnonneg Hrt Ha Hb Hba. unfold fdrcorrection_sorted.
  rewrite reverse_minimum_accumulate, !list_lookup_fmap.
  destruct (cummin_right _ !! r) as [cr|] eqn:Hcr; [|done].
  destruct (cummin_right _ !! t) as [ct|] eqn:Hct; [|done].
  intros [= <-] [= <-]. apply clip_to_one_mono.
  destruct (cummin_right_attained _ _ _ Hcr) as (u & Hru & Hu).
  destruct (decide (t ≤ u)%nat) as [Htu|Htu].
  - by apply (cummin_right_lower _ _ _ _ _ Hct Htu Hu).
  - assert (is_Some (l !! u)) as [pu Hpu].
    { apply lookup_lt_is_Some_2. apply lookup_lt_Some in Hb. lia. }
    rewrite (lookup_corrected_raw _ _ _ Hpu) in Hu. injection Hu as <-.
    apply Qle_trans with
      (b / (inject_Z (Z.of_nat (S t)) / inject_Z (Z.of_nat (length l))))%Q.
    + apply (cummin_right_lower _ _ _ _ _ Hct (Nat.le_refl t)).
      by apply lookup_corrected_raw.
    + apply ecdf_div_antitone; [| |lia|lia|by apply lookup_lt_Some in Hb].
      * by apply (Forall_lookup_1 _ _ _ _ Hnonneg Hb).
      * apply Qle_trans with a; [done|].
        by apply (StronglySorted_lookup_le Qle l r u).
Qed.

(** A p-value that is not larger gets an adjusted value that is not
    larger. *)
Lemma multipletests_fdr_bh_monotone (pvals : list Q) i j p q fi fj :
  Forall (Qle 0) pvals →
  pvals !! i = Some p → pvals !! j = Some q → (p <= q)%Q →
  multipletests_fdr_bh pvals !! i = Some fi →
  multipletests_fdr_bh pvals !! j = Some fj →
  (fi <= fj)%Q.
Proof.
  intros Hpvals Hi Hj Hpq Hfi Hfj.
  destruct (multipletests_fdr_bh_position pvals i p Hi)
    as (ri & fi' & _ & Hpi & Hci & Hbi).
  destruct (multipletests_fdr_bh_position pvals j q Hj)
    as (rj & fj' & _ & Hpj & Hcj & Hbj).
  assert (fi' = fi) as -> by congruence.
  assert (fj' = fj) as -> by congruence.
  destruct (decide (ri ≤ rj)%nat) as [Hr|Hr].
  - by apply (StronglySorted_lookup_le Qle
                (fdrcorrection_sorted (np_take pvals (argsort pvals))) ri rj
                fi fj (fdrcorrection_sorted_sorted _) Hr).
  - apply (fdrcorrection_sorted_ties _ rj ri q p fj fi
             (np_take_argsort_sorted pvals)); [|lia|done..].
    unfold np_take. apply Forall_fmap, Forall_forall. intros k Hk. simpl.
    rewrite argsort_Permutation, elem_of_seq in Hk.
    destruct (lookup_lt_is_Some_2 pvals k) as [x Hx]; [lia|].
    rewrite nth_lookup, Hx. simpl.
    by apply (Forall_lookup_1 _ _ _ _ Hpvals Hx).
Qed.

(** X16. The returned terms are closed under smaller p-values: when a row is
    returned, every term whose raw p-value is not larger is returned too,
    with an FDR that is not larger. *)
Theorem perform_ora_downward_closed
    (study : list string) gene_sets (background : list string) table row r :
  perform_ora study gene_sets background = Ok table →
  row ∈ table →
  r ∈ ora_results study gene_sets background →
  (rec_p_value r <= p_value row)%Q →
  ∃ row', row' ∈ table ∧ term row' = rec_term r
          ∧ p_value row' = rec_p_value r ∧ (FDR row' <= FDR row)%Q.
Proof.
  intros Hok Hrow [j Hj]%list_elem_of_lookup_1 Hp.
  apply (elem_of_perform_ora _ _ _ _ _ Hok) in Hrow as [([r0 f0] & Hrf & ->) Hf].
  apply list_elem_of_lookup_1 in Hrf as [i Hi].
  unfold ora_table in Hi.
  apply lookup_zip_with_Some in Hi as (r0' & f0' & [= <- <-] & Hr0 & Hf0).
  destruct (ora_table_lookup _ _ _ _ _ Hj) as (f & Hrf & _ & _).
  pose proof Hrf as Hf'. unfold ora_table in Hf'.
  apply lookup_zip_with_Some in Hf' as (r' & f' & [= <- <-] & _ & Hf').
  cbn [select_columns FDR p_value fst snd] in *.
  assert (f <= f0)%Q as Hle.
  { apply (multipletests_fdr_bh_monotone
             (rec_p_value <$> ora_results study gene_sets background)
             j i (rec_p_value r) (rec_p_value r0)); [| | |done..].
    - apply Forall_fmap.
      eapply Forall_impl; [apply p_value_unit_interval|]. by intros ? [? _].
    - by rewrite list_lookup_fmap, Hj.
    - by rewrite list_lookup_fmap, Hr0. }
  exists (select_columns (r, f)). split_and!; [|done..].
  apply (elem_of_perform_ora _ _ _ _ _ Hok). split.
  - exists (r, f). split; [|done]. by eapply list_elem_of_lookup_2.
  - cbn [select_columns FDR snd]. by apply Qle_trans with f0.
Qed.

Lemma perform_ora_downward_closed_witness :
  ∃ table row r,
    perform_ora nested_study nested_gene_sets nested_background = Ok table
    ∧ term <$> table = ["T"; "V"]
    ∧ row ∈ table ∧ term row = "V"
    ∧ r ∈ ora_results nested_study nested_gene_sets nested_background
    ∧ rec_term r = "T"
    ∧ (rec_p_value r < p_value row)%Q
    ∧ ∃ row', row' ∈ table ∧ term row' = rec_term r
              ∧ p_value row' = rec_p_value r ∧ (FDR row' <= FDR row)%Q.
Proof.
  eexists _, _, _. split; [vm_compute; reflexivity|].
  split; [done|].
  split; [apply list_elem_of_further, list_elem_of_here|].
  split; [done|].
  split; [unfold ora_results, nested_gene_sets; cbn [fmap list_fmap];
          apply list_elem_of_further, list_elem_of_here|].
  split; [done|].
  split; [by vm_compute|].
  apply (perform_ora_downward_closed
           nested_study nested_gene_sets nested_background).
  - vm_compute. reflexivity.
  - apply list_elem_of_further, list_elem_of_here.
  - apply list_elem_of_further, list_elem_of_here.
  - by vm_compute.
Defined.

End ora_more.

(** ** Scatter plotter: further properties *)

Section scatter_plot_more.

Implicit Types (result_df : list enrichment_row).

Lemma StronglySorted_take {A} (R : relation A) (l : list A) n :
  StronglySorted R l → StronglySorted R (take n l).
Proof.
  intros Hsorted. revert n.
  induction Hsorted as [|x l _ IH Hx]; intros [|n]; simpl; try constructor.
  - apply IH.
  - apply Forall_forall. intros y Hy.
    apply (proj1 (Forall_forall _ _) Hx).
    by eapply elem_of_sublist; [|apply sublist_take].
Qed.

Lemma DataFrame_head_take {A} (n : Z) (rows : list A) :
  ∃ k, DataFrame_head n rows = take k rows.
Proof. unfold DataFrame_head. destruct (0 <=? n)%Z; by eexists. Qed.

Lemma plot_rows_take result_df min_study_count max_pval top_n :
  ∃ k, plot_enrichment_scatter_rows result_df min_study_count max_pval top_n
       = take k (plot_enrichment_scatter_rows
                   result_df min_study_count max_pval None).
Proof.
  unfold plot_enrichment_scatter_rows. destruct top_n as [t|].
  - destruct (t =? 0)%Z; [|apply DataFrame_head_take].
    eexists. symmetry. apply take_ge. reflexivity.
  - eexists. symmetry. apply take_ge. reflexivity.
Qed.

Lemma List_filter_filter {A} (f g : A → bool) (l : list A) :
  List.filter g (List.filter f l) = List.filter (λ x, f x && g x) l.
Proof.
  induction l as [|x l IH]; [done|]. simpl.
  destruct (f x); simpl; [|done]. destruct (g x); by rewrite IH.
Qed.

(** The rows that pass the two filters of lines 200-203. *)
Lemma plot_rows_unlimited result_df min_study_count max_pval :
  plot_enrichment_scatter_rows result_df min_study_count max_pval None
  ≡ₚ (λ r, (r, true_divide (er_study_count r) (er_background_count r))) <$>
     List.filter
       (λ r, (min_study_count <=? er_study_count r)%Z
             && match max_pval with
                | Some m => Qle_bool (er_pvalue r) m
                | None => true
                end)
       result_df.
Proof.
  unfold plot_enrichment_scatter_rows. rewrite merge_sort_Permutation.
  destruct max_pval as [m|]; [by rewrite List_filter_filter|].
  rewrite (filter_ext (λ r, (min_study_count <=? er_study_count r)%Z)
             (λ r, (min_study_count <=? er_study_count r)%Z && true));
    [done|].
  intros r. by rewrite andb_true_r.
Qed.

(** X17. Whatever the options, the rows drawn are rows of the table, each at most
    as often as it occurs there; every one passes the study-count and the
    p-value filter and carries its ratio; and they come in ascending order
    of the ratio. *)
Theorem plot_rows_sound result_df min_study_count max_pval top_n :
  let rows :=
    plot_enrichment_scatter_rows result_df min_study_count max_pval top_n in
  StronglySorted ratio_le rows
  ∧ rows.*1 ⊆+ result_df
  ∧ Forall (λ row,
        (min_study_count ≤ er_study_count row.1)%Z
        ∧ (∀ m, max_pval = Some m → (er_pvalue row.1 <= m)%Q)
        ∧ row.2 = true_divide (er_study_count row.1)
                    (er_background_count row.1))
      rows.
Proof.
  intros rows.
  destruct (plot_rows_take result_df min_study_count max_pval top_n)
    as [k Hk]. fold rows in Hk.
  pose proof (plot_rows_unlimited result_df min_study_count max_pval) as Hall.
  assert (rows ⊆+ (λ r, (r, true_divide (er_study_count r)
                               (er_background_count r))) <$>
                  List.filter
                    (λ r, (min_study_count <=? er_study_count r)%Z
                          && match max_pval with
                             | Some m => Qle_bool (er_pvalue r) m
                             | None => true
                             end)
                    result_df) as Hsub.
  { rewrite <- Hall, Hk. apply sublist_submseteq, sublist_take. }
  split_and!.
  - rewrite Hk. apply StronglySorted_take.
    unfold plot_enrichment_scatter_rows.
    apply StronglySorted_merge_sort; apply _.
  - etrans; [apply fmap_submseteq, Hsub|].
    rewrite <- list_fmap_compose.
    assert (fst ∘ (λ r, (r, true_divide (er_study_count r)
                              (er_background_count r))) = id) as -> by done.
    rewrite list_fmap_id. apply sublist_submseteq, List_filter_sublist.
  - apply Forall_forall. intros row Hrow.
    apply (elem_of_submseteq _ _ _ Hrow) in Hsub.
    apply list_elem_of_fmap in Hsub as (r & -> & Hr).
    apply elem_of_List_filter in Hr as [_ [Hcount Hp]%andb_true_iff].
    cbn [fst snd]. split_and!; [by apply Z.leb_le| |done].
    intros m ->. by apply Qle_bool_iff.
Qed.

(** The rows selected are among the rows that pass the two filters. *)
Lemma plot_rows_passing result_df min_study_count max_pval top_n :
  (plot_enrichment_scatter_rows result_df min_study_count max_pval top_n).*1
  ⊆+ List.filter
       (λ r, (min_study_count <=? er_study_count r)%Z
             && match max_pval with
                | Some m => Qle_bool (er_pvalue r) m
                | None => true
                end)
       result_df.
Proof.
  destruct (plot_rows_take result_df min_study_count max_pval top_n)
    as [k ->].
  etrans; [apply fmap_submseteq, sublist_submseteq, sublist_take|].
  rewrite plot_rows_unlimited, <- list_fmap_compose.
  assert (fst ∘ (λ r, (r, true_divide (er_study_count r)
                            (er_background_count r))) = id) as -> by done.
  by rewrite list_fmap_id.
Qed.

Lemma plot_rows_length result_df min_study_count max_pval top_n :
  let passing :=
    length (List.filter
              (λ r, (min_study_count <=? er_study_count r)%Z
                    && match max_pval with
                       | Some m => Qle_bool (er_pvalue r) m
                       | None => true
                       end)
              result_df) in
  length (plot_enrichment_scatter_rows
            result_df min_study_count max_pval top_n)
  = match top_n with
    | None => passing
    | Some t =>
        if (t =? 0)%Z then passing
        else if (0 <? t)%Z then Z.to_nat t `min` passing
        else (passing - Z.to_nat (- t))%nat
    end.
Proof.
  intros passing.
  assert (length (plot_enrichment_scatter_rows
                    result_df min_study_count max_pval None) = passing)
    as Hall by (by rewrite plot_rows_unlimited, length_fmap).
  destruct top_n as [t|]; [|done].
  unfold plot_enrichment_scatter_rows in *.
  destruct (Z.eqb_spec t 0) as [->|Ht]; [done|].
  unfold DataFrame_head.
  destruct (Z.leb_spec 0 t), (Z.ltb_spec 0 t); try lia;
    rewrite length_take, Hall; lia.
Qed.

Lemma math_log10_domain_pos (x : Q) :
  (0 < x)%Q → math_log10_domain x = Ok ().
Proof.
  intros Hx. unfold math_log10_domain.
  destruct (Qle_bool x 0) eqn:Hle; [|done].
  apply Qle_bool_iff in Hle. by apply Qle_not_lt in Hle.
Qed.

Lemma math_log10_domain_nonpos (x : Q) :
  (x <= 0)%Q → math_log10_domain x = Raise ValueError.
Proof.
  intros Hx%Qle_bool_iff. unfold math_log10_domain. by rewrite Hx.
Qed.

(** The colours of line 230 can be computed exactly when every selected row
    has a positive p-value. *)
Lemma log10_colours_Ok (data : list (enrichment_row * float_val)) :
  Forall (λ row, 0 < er_pvalue row.1)%Q data →
  ∃ colours,
    comprehension (λ row, math_log10_domain (er_pvalue row.1)) data = Ok colours.
Proof.
  induction 1 as [|row data Hrow _ [colours IH]]; [by eexists|].
  cbn [comprehension]. rewrite (math_log10_domain_pos _ Hrow), IH. by eexists.
Qed.

Lemma log10_colours_Raise (data : list (enrichment_row * float_val)) :
  Exists (λ row, er_pvalue row.1 <= 0)%Q data →
  comprehension (λ row, math_log10_domain (er_pvalue row.1)) data
  = Raise ValueError.
Proof.
  induction data as [|row data IH]; [by intros ?%Exists_nil|].
  intros Hex. cbn [comprehension].
  destruct (Qlt_le_dec 0 (er_pvalue row.1)) as [Hpos|Hle].
  - rewrite (math_log10_domain_pos _ Hpos).
    apply Exists_cons in Hex as [Hrow|Hex]; [by apply Qle_not_lt in Hrow|].
    by rewrite IH.
  - by rewrite (math_log10_domain_nonpos _ Hle).
Qed.

Lemma pvalue_sign_dec (row : enrichment_row * float_val) :
  {(0 < er_pvalue row.1)%Q} + {(er_pvalue row.1 <= 0)%Q}.
Proof. apply Qlt_le_dec. Qed.

(** The call draws the selected rows, or raises [ValueError] when one of them
    has a p-value that is not positive. *)
Lemma plot_drawn_cases result_df min_study_count max_pval top_n :
  let data :=
    plot_enrichment_scatter_rows result_df min_study_count max_pval top_n in
  (Forall (λ row, 0 < er_pvalue row.1)%Q data
   ∧ plot_enrichment_scatter_drawn result_df min_study_count max_pval top_n
     = Ok data)
  ∨ (Exists (λ row, er_pvalue row.1 <= 0)%Q data
     ∧ plot_enrichment_scatter_drawn result_df min_study_count max_pval top_n
       = Raise ValueError).
Proof.
  intros data. unfold plot_enrichment_scatter_drawn. fold data.
  destruct (Forall_Exists_dec _ _ pvalue_sign_dec data) as [Hall|Hex].
  - left. split; [done|]. by destruct (log10_colours_Ok data Hall) as [? ->].
  - right. split; [done|]. by rewrite log10_colours_Raise.
Qed.

(** X18. Whether rows are drawn, and how many.  The call draws when every row
    that passes the filters has a positive p-value; it can only fail with the
    [ValueError] of [math.log10], and with [top_n] [None] or [0] it does so
    exactly when a row that passes the filters has a p-value that is not
    positive.  When it draws, it draws all rows that pass the filters for
    [top_n] [None] or [0], at most [top_n] of them for a positive [top_n], and
    all but [-top_n] of them for a negative one. *)
Theorem plot_rows_count result_df min_study_count max_pval top_n :
  let passing_rows :=
    List.filter
      (λ r, (min_study_count <=? er_study_count r)%Z
            && match max_pval with
               | Some m => Qle_bool (er_pvalue r) m
               | None => true
               end)
      result_df in
  let passing := length passing_rows in
  let drawn :=
    plot_enrichment_scatter_drawn result_df min_study_count max_pval top_n in
  (∀ rows, drawn = Ok rows →
     length rows
     = match top_n with
       | None => passing
       | Some t =>
           if (t =? 0)%Z then passing
           else if (0 <? t)%Z then Z.to_nat t `min` passing
           else (passing - Z.to_nat (- t))%nat
       end)
  ∧ (Forall (λ r, 0 < er_pvalue r)%Q passing_rows → ∃ rows, drawn = Ok rows)
  ∧ ((∃ rows, drawn = Ok rows) ∨ drawn = Raise ValueError)
  ∧ (top_n = None ∨ top_n = Some 0%Z →
     drawn = Raise ValueError
     ↔ Exists (λ r, er_pvalue r <= 0)%Q passing_rows).
Proof.
  intros passing_rows passing drawn.
  pose proof (plot_drawn_cases result_df min_study_count max_pval top_n)
    as Hcases. cbv zeta in Hcases. fold drawn in Hcases.
  pose proof (plot_rows_passing result_df min_study_count max_pval top_n)
    as Hsub. fold passing_rows in Hsub.
  split_and!.
  - intros rows Hrows.
    destruct Hcases as [[_ Hok]|[_ Hraise]]; [|congruence].
    assert (rows = plot_enrichment_scatter_rows
                     result_df min_study_count max_pval top_n) as ->
      by congruence.
    apply plot_rows_length.
  - intros Hpos. destruct Hcases as [[_ Hok]|[Hex _]]; [by eexists|].
    apply Exists_exists in Hex as (row & Hrow & Hle).
    assert (row.1 ∈ passing_rows) as Hin.
    { eapply elem_of_submseteq; [|exact Hsub]. by apply list_elem_of_fmap_2. }
    apply (proj1 (Forall_forall _ _) Hpos) in Hin.
    by apply Qle_not_lt in Hle.
  - destruct Hcases as [[_ Hok]|[_ Hraise]]; [left; by eexists|by right].
  - intros Hall.
    assert (plot_enrichment_scatter_rows
              result_df min_study_count max_pval top_n
            ≡ₚ (λ r, (r, true_divide (er_study_count r)
                           (er_background_count r))) <$> passing_rows)
      as Hperm.
    { unfold passing_rows.
      rewrite <- (plot_rows_unlimited result_df min_study_count max_pval).
      by destruct Hall as [->| ->]. }
    split.
    + intros Hraise. destruct Hcases as [[_ Hok]|[Hex _]]; [congruence|].
      apply Exists_exists in Hex as (row & Hrow & Hle).
      rewrite Hperm in Hrow. apply list_elem_of_fmap in Hrow as (r & -> & Hr).
      apply Exists_exists. by exists r.
    + intros Hex. destruct Hcases as [[Hpos _]|[_ Hraise]]; [|done].
      apply Exists_exists in Hex as (r & Hr & Hle).
      apply (list_elem_of_fmap_2
               (λ r, (r, true_divide (er_study_count r)
                           (er_background_count r)))) in Hr.
      rewrite <- Hperm in Hr.
      apply (proj1 (Forall_forall _ _) Hpos) in Hr. cbn [fst] in Hr.
      by apply Qle_not_lt in Hle.
Qed.

Lemma plot_rows_count_witness :
  (∃ rows, plot_enrichment_scatter_drawn
             [term_high; term_zero; term_low] 3 (Some (1 # 20)) (Some 2%Z)
           = Ok rows
           ∧ length rows = 1%nat)
  ∧ plot_enrichment_scatter_drawn
      [term_high; term_zero; term_low] 1 (Some (1 # 20)) None
    = Raise ValueError.
Proof.
  split.
  - eexists. split; [vm_compute; reflexivity|].
    destruct (plot_rows_count
                [term_high; term_zero; term_low] 3 (Some (1 # 20)) (Some 2%Z))
      as [Hlength _].
    apply Hlength. vm_compute. reflexivity.
  - destruct (plot_rows_count
                [term_high; term_zero; term_low] 1 (Some (1 # 20)) None)
      as (_ & _ & _ & Hraise).
    apply Hraise; [by left|].
    apply Exists_cons_tl, Exists_cons_hd. by vm_compute.
Defined.

End scatter_plot_more.

(** ** Pie-chart script: further properties *)

Section pie_chart_more.

Import PieChart.

Implicit Types (input_bed : list bed_row) (s : Series).

Lemma Series_drop_present labels s :
  (∀ l, l ∈ labels → l ∈ s.*1) →
  Series_drop labels s
  = Ok (List.filter (λ kv, bool_decide (kv.1 ∉ labels)) s).
Proof.
  intros Hpresent. unfold Series_drop.
  rewrite filter_all_false; [done|].
  intros l Hl. apply bool_decide_eq_false_2. intros Hnot.
  by apply Hnot, Hpresent.
Qed.

Lemma Series_getitem_Ok s label :
  label ∈ s.*1 ↔ ∃ v, Series_getitem s label = Ok v.
Proof.
  unfold Series_getitem.
  destruct (List.filter _ s) as [|kv kvs] eqn:Hfilter.
  - split; [|by intros [? ?]]. intros ([l n] & -> & Hin)%list_elem_of_fmap.
    assert ((l, n) ∈ List.filter (λ kv, String.eqb kv.1 (l, n).1) s) as Hkv.
    { apply elem_of_List_filter. split; [done|]. apply String.eqb_refl. }
    rewrite Hfilter in Hkv. by apply elem_of_nil in Hkv.
  - split; [intros _; destruct kvs; by eexists|]. intros _.
    assert (kv ∈ List.filter (λ kv, String.eqb kv.1 label) s) as Hkv
      by (rewrite Hfilter; left).
    apply elem_of_List_filter in Hkv as [Hin Heq%String.eqb_eq].
    apply list_elem_of_fmap. by exists kv.
Qed.

Lemma comprehension_Ok {A B} (f : A → result B) (l : list A) :
  (∃ ys, comprehension f l = Ok ys) ↔ ∀ x, x ∈ l → ∃ y, f x = Ok y.
Proof.
  induction l as [|x l IH]; simpl.
  - split; [by intros _ ? ?%elem_of_nil|by eexists].
  - split.
    + intros [ys Hys] x' Hx'.
      destruct (f x) as [y|] eqn:Hy; [|done]. simpl in Hys.
      destruct (comprehension f l) as [ys'|] eqn:Hl; [|done].
      apply elem_of_cons in Hx' as [->|Hx']; [by eexists|].
      apply (proj1 IH); [by eexists|done].
    + intros Hall. destruct (Hall x) as [y ->]; [by left|]. simpl.
      destruct (proj2 IH) as [ys ->]; [|by eexists].
      intros x' Hx'. apply Hall. by right.
Qed.

Lemma legend_comprehension_Ok s (labels : list string) :
  (∃ legend,
     comprehension (λ label, v ← Series_getitem s label; mret (label, v)) labels
     = Ok legend)
  ↔ ∀ label, label ∈ labels → label ∈ s.*1.
Proof.
  rewrite comprehension_Ok. split; intros Hall label Hlabel.
  - apply Series_getitem_Ok. destruct (Hall label Hlabel) as [[l v] Hv].
    destruct (Series_getitem s label) as [v'|]; [by eexists|done].
  - apply Hall, Series_getitem_Ok in Hlabel as [v ->]. by eexists.
Qed.

(** The run from the parsed lines on, when the three excluded categories
    are there. *)
Lemma main_when_present input_bed palette :
  (∀ c, c ∈ excluded → c ∈ tx_region_of <$> input_bed) →
  let categories :=
    List.filter (λ c, bool_decide (c ∉ excluded))
      (merge_sort String.le (remove_dups (tx_region_of <$> input_bed))) in
  let bs :=
    Series_rename (py_dict (zip categories renamed_columns))
      ((λ c, (c, rows_in_category input_bed c)) <$> categories) in
  main input_bed palette
  = (labels ← comprehension
                (λ label, v ← Series_getitem bs label; mret (label, v))
                renamed_columns;
     mret {| wedges := bs;
             colors := if String.eqb palette "human"
                       then colors_human else colors_mouse;
             legend := labels |}).
Proof.
  intros Hpresent categories bs. unfold main.
  rewrite tx_region_comprehension. cbn [mbind result_bind].
  rewrite Series_drop_present.
  - cbn [mbind result_bind].
    assert (List.filter (λ kv, bool_decide (kv.1 ∉ excluded))
              (groupby_count (tx_region_of <$> input_bed))
            = (λ c, (c, rows_in_category input_bed c)) <$> categories) as ->.
    { unfold groupby_count, categories. rewrite List_filter_fmap.
      apply list_fmap_ext. intros _ c _. by rewrite groupby_count_size. }
    rewrite <- list_fmap_compose.
    assert (fst ∘ (λ c, (c, rows_in_category input_bed c)) = id) as -> by done.
    by rewrite list_fmap_id.
  - intros c Hc%Hpresent. unfold groupby_count. rewrite <- list_fmap_compose.
    apply list_elem_of_fmap. exists c. split; [done|].
    by rewrite merge_sort_Permutation, elem_of_remove_dups.
Qed.

Lemma main_raises_when_absent input_bed palette c :
  c ∈ excluded → c ∉ tx_region_of <$> input_bed →
  ∃ missing, main input_bed palette = Raise (KeyError missing) ∧ c ∈ missing.
Proof.
  intros Hc Habsent. unfold main.
  rewrite tx_region_comprehension. cbn [mbind result_bind]. unfold Series_drop.
  destruct (List.filter _ excluded) as [|m ms] eqn:Hmissing.
  - assert (c ∈ List.filter
              (λ l, bool_decide
                      (l ∉ (groupby_count (tx_region_of <$> input_bed)).*1))
              excluded) as Hin.
    { apply elem_of_List_filter. split; [done|].
      apply bool_decide_eq_true_2. unfold groupby_count.
      rewrite <- list_fmap_compose. intros (c' & -> & Hc')%list_elem_of_fmap.
      by rewrite merge_sort_Permutation, elem_of_remove_dups in Hc'. }
    rewrite Hmissing in Hin. by apply elem_of_nil in Hin.
  - exists (m :: ms). split; [done|]. rewrite <- Hmissing.
    apply elem_of_List_filter. split; [done|].
    apply bool_decide_eq_true_2. unfold groupby_count.
    rewrite <- list_fmap_compose. intros (c' & -> & Hc')%list_elem_of_fmap.
    by rewrite merge_sort_Permutation, elem_of_remove_dups in Hc'.
Qed.

Lemma length_retained_categories (tokens : list string) :
  length (List.filter (λ c, bool_decide (c ∉ excluded))
            (merge_sort String.le (remove_dups tokens)))
  = length (remove_dups
              (List.filter (λ c, bool_decide (c ∉ excluded)) tokens)).
Proof.
  apply Permutation_length, NoDup_Permutation.
  - apply (retained_categories tokens).
  - apply NoDup_remove_dups.
  - intros c. rewrite (proj2 (proj2 (retained_categories tokens)) c).
    rewrite elem_of_remove_dups, elem_of_List_filter.
    by rewrite bool_decide_eq_true.
Qed.

(** X20. The script completes exactly when exon, start_codon and stop_codon all
    occur among the categories of the input and at least four other
    categories occur; the palette plays no part in it. *)
Theorem main_completes_iff input_bed palette :
  (∃ chart, main input_bed palette = Ok chart) ↔
  (∀ c, c ∈ excluded → ∃ r, r ∈ input_bed ∧ tx_region_of r = c)
  ∧ (4 ≤ length (remove_dups
                   (List.filter (λ c, bool_decide (c ∉ excluded))
                      (tx_region_of <$> input_bed))))%nat.
Proof.
  rewrite <- length_retained_categories. split.
  - intros [chart (Hpresent & Hwedges & Hlegend)%main_Ok]. split.
    + intros c Hc%Hpresent. apply list_elem_of_fmap in Hc as (r & -> & Hr).
      by exists r.
    + assert (∀ label, label ∈ renamed_columns → label ∈ (wedges chart).*1)
        as Hlabels by (apply legend_comprehension_Ok; by eexists).
      apply NoDup_submseteq, submseteq_length in Hlabels;
        [|by apply (bool_decide_unpack _)].
      rewrite Hwedges in Hlabels. unfold Series_rename in Hlabels.
      by rewrite !length_fmap in Hlabels.
  - intros [Hpresent Hfour].
    rewrite main_when_present; cycle 1.
    { intros c (r & Hr & <-)%Hpresent. apply list_elem_of_fmap. by exists r. }
    destruct (retained_categories (tx_region_of <$> input_bed))
      as (_ & Hnodup & _).
    destruct (List.filter _ (merge_sort _ _))
      as [|c1 [|c2 [|c3 [|c4 rest]]]]; cbn [length] in Hfour; try lia.
    apply NoDup_cons in Hnodup as [Hc1 Hnodup].
    apply NoDup_cons in Hnodup as [Hc2 Hnodup].
    apply NoDup_cons in Hnodup as [Hc3 _].
    assert (c1 ≠ c2 ∧ c1 ≠ c3 ∧ c1 ≠ c4 ∧ c2 ≠ c3 ∧ c2 ≠ c4 ∧ c3 ≠ c4)
      as (? & ? & ? & ? & ? & ?) by set_solver.
    edestruct (proj2 (legend_comprehension_Ok
      (Series_rename
         (py_dict (zip (c1 :: c2 :: c3 :: c4 :: rest) renamed_columns))
         ((λ c, (c, rows_in_category input_bed c)) <$>
            c1 :: c2 :: c3 :: c4 :: rest))
      renamed_columns)) as [labels Hlabels].
    + unfold Series_rename, py_dict, renamed_columns.
      cbn [zip zip_with foldl fmap list_fmap fst snd].
      rewrite zip_with_nil_r. cbn [foldl].
      simplify_map_eq. intros label Hlabel.
      apply elem_of_cons in Hlabel as [->|Hlabel]; [by left|].
      apply elem_of_cons in Hlabel as [->|Hlabel]; [by right; left|].
      apply elem_of_cons in Hlabel as [->|Hlabel]; [by do 2 right; left|].
      apply elem_of_cons in Hlabel as [->|Hlabel]; [by do 3 right; left|].
      by apply elem_of_nil in Hlabel.
    + rewrite Hlabels. by eexists.
Qed.

(** X21. When one of the three excluded categories does not occur in the input
    the script raises [KeyError], and the error names that category. *)
Theorem main_raises_on_absent_category input_bed palette c :
  c ∈ excluded → (∀ r, r ∈ input_bed → tx_region_of r ≠ c) →
  ∃ missing, main input_bed palette = Raise (KeyError missing) ∧ c ∈ missing.
Proof.
  intros Hc Habsent. apply main_raises_when_absent; [done|].
  intros (r & -> & Hr)%list_elem_of_fmap. by apply (Habsent r).
Qed.

Lemma main_raises_on_absent_category_witness :
  ∃ missing, main example_bed "human" = Raise (KeyError missing)
             ∧ "stop_codon" ∈ missing.
Proof.
  apply (main_raises_on_absent_category example_bed "human" "stop_codon").
  - unfold excluded. set_solver.
  - intros r Hr. unfold example_bed in Hr.
    repeat (apply elem_of_cons in Hr as [->|Hr]; [by vm_compute|]).
    by apply elem_of_nil in Hr.
Defined.

Lemma rows_in_category_cons r input_bed c :
  rows_in_category (r :: input_bed) c
  = ((if String.eqb (tx_region_of r) c then 1 else 0)
     + rows_in_category input_bed c)%nat.
Proof.
  unfold rows_in_category. simpl. by destruct (String.eqb (tx_region_of r) c).
Qed.

Lemma sum_indicator_NoDup (categories : list string) (c : string) :
  NoDup categories →
  sum_list ((λ c', if String.eqb c c' then 1 else 0)%nat <$> categories)
  = (if bool_decide (c ∈ categories) then 1 else 0)%nat.
Proof.
  induction 1 as [|c' categories Hc' _ IH]; [done|].
  rewrite fmap_cons. cbn [sum_list_with]. rewrite IH. unfold id.
  destruct (String.eqb_spec c c') as [->|Hne].
  - rewrite (bool_decide_eq_true_2 (c' ∈ c' :: categories)) by left.
    by rewrite (bool_decide_eq_false_2 (c' ∈ categories)).
  - destruct (decide (c ∈ categories)) as [Hin|Hnot].
    + rewrite (bool_decide_eq_true_2 (c ∈ categories)) by done.
      by rewrite (bool_decide_eq_true_2 (c ∈ c' :: categories)) by (by right).
    + rewrite (bool_decide_eq_false_2 (c ∈ categories)) by done.
      rewrite (bool_decide_eq_false_2 (c ∈ c' :: categories)); [done|].
      by intros [?|?]%elem_of_cons.
Qed.

Lemma sum_rows_in_category input_bed (categories : list string) :
  NoDup categories →
  sum_list (rows_in_category input_bed <$> categories)
  = length (List.filter
              (λ r, bool_decide (tx_region_of r ∈ categories)) input_bed).
Proof.
  intros Hnodup. induction input_bed as [|r input_bed IH].
  - cbn [List.filter length]. apply sum_list_with_zero.
    by intros n (c & -> & _)%list_elem_of_fmap.
  - assert (sum_list (rows_in_category (r :: input_bed) <$> categories)
            = (sum_list ((λ c', if String.eqb (tx_region_of r) c'
                               then 1 else 0)%nat <$> categories)
               + sum_list (rows_in_category input_bed <$> categories))%nat)
      as ->.
    { clear. induction categories as [|c cs IHc]; [done|].
      rewrite !fmap_cons. cbn [sum_list_with].
      rewrite IHc, rows_in_category_cons. unfold id. lia. }
    rewrite sum_indicator_NoDup, IH by done. simpl.
    by destruct (bool_decide (tx_region_of r ∈ categories)).
Qed.

(** X22. The wedge sizes add up to the number of lines whose category is not one
    of the three excluded ones: no such line is lost or counted twice. *)
Theorem pie_chart_total input_bed palette chart :
  main input_bed palette = Ok chart →
  sum_list (wedges chart).*2
  = length (List.filter
              (λ r, bool_decide (tx_region_of r ∉ excluded)) input_bed).
Proof.
  intros (_ & Hwedges & _)%main_Ok.
  destruct (retained_categories (tx_region_of <$> input_bed))
    as (_ & Hnodup & Hin).
  rewrite Hwedges, snd_Series_rename, <- list_fmap_compose.
  assert (snd ∘ (λ c, (c, rows_in_category input_bed c))
          = rows_in_category input_bed) as -> by done.
  rewrite sum_rows_in_category by done. f_equal.
  apply filter_ext_in. intros r Hr%list_elem_of_In.
  apply bool_decide_ext. rewrite Hin. split; [by intros [_ ?]|].
  intros Hnot. split; [|done]. apply list_elem_of_fmap. by exists r.
Qed.

Lemma pie_chart_total_witness :
  ∃ chart, main full_bed "mouse" = Ok chart
    ∧ sum_list (wedges chart).*2
      = length (List.filter
                  (λ r, bool_decide (tx_region_of r ∉ excluded)) full_bed).
Proof.
  eexists. split; [vm_compute; reflexivity|].
  apply (pie_chart_total full_bed "mouse"). vm_compute. reflexivity.
Defined.

End pie_chart_more.
